(** * vscode-commitizen: the commit wizard and the commit orchestration

    A shallow embedding of [src/extension.ts]: the wizard class
    [ConventionalCommitMessage] with its six prompting steps, the rendering
    of the commit message, and the [commit] function that stages, commits
    and reports.

    Conventions of the embedding.
    - A JavaScript string is a [string] of bytes (UTF-8); its columns are
      its bytes, which is exact for ASCII text.
    - [undefined] is [None].
    - An [async] function is a finite interaction tree [Prog]: each call to
      the editor or to a child process is a node whose continuation
      receives the answer. *)

From Stdlib Require Import ZArith NArith Ascii String List Bool Lia DecimalString.
From stdpp Require Import gmap strings list.

(** The append of strings computes under [simpl], as it does in the
    Standard Library. *)
#[global] Arguments String.append !s1 s2 : simpl nomatch.

(** ** JavaScript strings and values *)

Definition LF : ascii := "010"%char.
Definition nl : string := String LF EmptyString.

(** [Boolean(s)] for a string: every string but the empty one is truthy. *)
Definition truthy (s : string) : bool := negb (String.eqb s "").

(** The text a template literal or [+] gives for a string that may be
    [undefined]. *)
Definition template (o : option string) : string := default "undefined" o.

(** A value that is either a string or a scope object [{name?: string}]:
    what the entries of [scopes] and the labels of the picks are at run
    time. *)
Inductive Value :=
| VStr (s : string)
| VObj (name : option string).

Definition value_truthy (v : Value) : bool :=
  match v with
  | VStr s => truthy s
  | VObj _ => true
  end.

(** [String(v)], what [+] and template literals do to a value. *)
Definition value_to_string (v : Value) : string :=
  match v with
  | VStr s => s
  | VObj _ => "[object Object]"
  end.

Definition template_value (o : option Value) : string :=
  default "undefined" (value_to_string <$> o).

(** [s === v] for a string [s]. *)
Definition strict_eq (s : string) (v : option Value) : bool :=
  match v with
  | Some (VStr t) => String.eqb s t
  | _ => false
  end.

(** [String.prototype.trim] on the ASCII white space characters: exact for
    a text of ASCII characters. The run time also removes the other
    Unicode spaces (U+00A0, U+2028, U+FEFF and the like), which a
    statement about [trim] has to leave out. *)
Definition is_space (c : ascii) : bool :=
  match nat_of_ascii c with
  | 9 | 10 | 11 | 12 | 13 | 32 => true
  | _ => false
  end.

Fixpoint trimStart (s : string) : string :=
  match s with
  | EmptyString => EmptyString
  | String c s' => if is_space c then trimStart s' else s
  end.

Fixpoint trimEnd (s : string) : string :=
  match s with
  | EmptyString => EmptyString
  | String c s' =>
      match trimEnd s' with
      | EmptyString => if is_space c then EmptyString else String c EmptyString
      | t => String c t
      end
  end.

Definition trim (s : string) : string := trimEnd (trimStart s).

(** [push c parts] puts the character [c] in front of the first part. *)
Definition push (c : ascii) (parts : list string) : list string :=
  match parts with
  | [] => [String c EmptyString]
  | w :: ws => String c w :: ws
  end.

(** [s.split(sep)] for a one-character separator and [parts.join(sep)]. *)
Fixpoint split (sep : ascii) (s : string) : list string :=
  match s with
  | EmptyString => [EmptyString]
  | String c s' =>
      if Ascii.eqb c sep then EmptyString :: split sep s'
      else push c (split sep s')
  end.

Fixpoint join (sep : string) (parts : list string) : string :=
  match parts with
  | [] => EmptyString
  | [w] => w
  | w :: ws => w +:+ sep +:+ join sep ws
  end.

(** ** Configuration *)

Inductive ShowOutputChannel := Off | Always | OnError.

(** The [commitizen] section of the editor settings. *)
Record Configuration := {
  autoSync : bool;
  subjectLength : Z;
  showOutputChannel : ShowOutputChannel }.

Record CommitType := {
  value : string;
  name : string;
  emoji : string;
  emojiCode : string }.

(** The object a [.cz-config.js] exports. The fields the code tests before
    use are optional here, as they are at run time. *)
Record CzConfig := {
  types : option (list CommitType);
  scopes : option (list Value);
  messages : option (gmap string string);
  allowCustomScopes : bool;
  allowBreakingChanges : list string;
  footerPrefix : option string;
  skipQuestions : option (list string) }.

Definition DEFAULT_TYPES : list CommitType :=
  [ {| value := "feat"; name := "       : ✨ A new feature";
       emoji := "✨"; emojiCode := ":sparkles:" |};
    {| value := "fix"; name := "        : 🐛 A bug fix";
       emoji := "🐛"; emojiCode := ":bug:" |};
    {| value := "docs"; name := "      : 📖 Documentation only changes";
       emoji := "📖"; emojiCode := ":pencil:" |};
    {| value := "style";
       name := "     : 💄 Changes that do not affect the meaning of the code (white-space, formatting, missing semi-colons, etc)";
       emoji := "💄"; emojiCode := ":lipstick:" |};
    {| value := "refactor";
       name := " : 📦 A code change that neither fixes a bug nor adds a feature";
       emoji := "📦"; emojiCode := ":package:" |};
    {| value := "perf";
       name := "      : 🚀 A code change that improves performance";
       emoji := "🚀"; emojiCode := ":rocket:" |};
    {| value := "test";
       name := "      : 🚨 Adding missing tests or correcting existing tests";
       emoji := "🚨"; emojiCode := ":rotating_light:" |};
    {| value := "build";
       name := "     : 👷 Changes that affect the build system or external dependencies (example scopes: gulp, broccoli, npm)";
       emoji := "👷"; emojiCode := ":construction_worker:" |};
    {| value := "ci";
       name := "         : 💻 Changes to our CI configuration files and scripts (example scopes: Travis, Circle, BrowserStack, SauceLabs)";
       emoji := "💻"; emojiCode := ":computer:" |};
    {| value := "chore";
       name := "    : 🎫 Other changes that don't modify src or test files";
       emoji := "🎫"; emojiCode := ":ticket:" |} ].

(** ** Errors

    What a rejected promise or a [throw] carries: an [Error] with its
    [message] and [stack]. *)

Module Error.
Record t := { message : string; stack : string }.
End Error.

(** The [TypeError] of reading [property] of [undefined]. The texts are the
    engine's; no result below depends on them. *)
Definition TypeError (property : string) : Error.t :=
  let text := "Cannot read property '" +:+ property +:+ "' of undefined" in
  {| Error.message := text; Error.stack := "TypeError: " +:+ text |}.

(** How the evaluation of an expression ends. *)
Inductive Completion (A : Type) :=
| Normal (a : A)
| Throws (e : Error.t).
Arguments Normal {A} a.
Arguments Throws {A} e.

(** ** Hard wrapping

    The function [wrap] of the package [wrap-ansi] is a dependency: its
    code is not part of the sources. *)

(** Modelled from the spec: the cutting of a word wider than a line, for
    [wrap] below. [pieces cols room w] cuts [w] after [room] columns and
    then after every [cols] columns. *)
Fixpoint pieces (cols room : nat) (w : string) : list string :=
  match w with
  | EmptyString => [EmptyString]
  | String c w' =>
      match room with
      | O => EmptyString :: push c (pieces cols (cols - 1) w')
      | S room' => push c (pieces cols room' w')
      end
  end.

(** Modelled from the spec: the filling of rows with words, for [wrap]
    below. [row] is the row under construction: a word goes on it, after
    one space, when it fits; otherwise the row is closed and the word
    starts the next one, cut into pieces when it is wider than a row. *)
Fixpoint wrapWords (cols : nat) (row : string) (words : list string) : list string :=
  match words with
  | [] => [row]
  | w :: ws =>
      if String.length row + 1 + String.length w <=? cols
      then wrapWords cols (row +:+ " " +:+ w) ws
      else
        let ps := pieces cols cols w in
        row :: removelast ps ++ wrapWords cols (List.last ps EmptyString) ws
  end.

(** Modelled from the spec: the rows of one line of text, for [wrap]
    below. *)
Definition wrapLine (cols : nat) (line : string) : list string :=
  match split " "%char line with
  | [] => [EmptyString]
  | w :: ws =>
      let ps := pieces cols cols w in
      removelast ps ++ wrapWords cols (List.last ps EmptyString) ws
  end.

(** Modelled from the spec: [wrap(text, columns, {hard: true})] of the
    package [wrap-ansi], which is missing from the sources. The spec
    describes it as hard wrapping to the given number of columns: no
    resulting line is wider, a word wider than a line is split, and text
    whose lines already fit is returned as it is. Each line of the text is
    wrapped on its own, at word boundaries. *)
Definition wrap (text : string) (columns : nat) : string :=
  join nl (concat (map (wrapLine columns) (split LF text))).

(** ** Interaction with the editor and with child processes *)

Record QuickPickItem := { label : Value; description : string }.

(** What [execa] resolves to. *)
Record ExecaResult := { code : N; stdout : string }.

(** An [async] function as a finite tree: a leaf is the value returned or
    the error thrown; a node is a call to the editor or to a child process,
    whose continuation receives what the call resolves to. [undefined] from
    a prompt is [None]; a call that rejects answers with its error.

    [ShowQuickPick] and [ShowInputBox] carry the [placeHolder] and the
    [validateInput] option; the other options are the constants
    [ignoreFocusOut], [matchOnDescription] and [matchOnDetail], all
    [true]. *)
Inductive Prog (A : Type) : Type :=
| Ret (a : A)
| Throw (e : Error.t)
| ShowQuickPick (picks : list QuickPickItem) (placeHolder : string)
    (k : option QuickPickItem -> Prog A)
| ShowInputBox (placeHolder : string) (validateInput : option (string -> string))
    (k : option string -> Prog A)
| Execa (file : string) (args : list string) (cwd : string)
    (k : Error.t + ExecaResult -> Prog A)
| ExecuteCommand (command : string) (k : option Error.t -> Prog A)
| AppendLine (line : string) (k : Prog A)
| ChannelShow (k : Prog A)
| ShowErrorMessage (text : string) (k : Prog A).
Arguments Ret {A} a.
Arguments Throw {A} e.
Arguments ShowQuickPick {A} picks placeHolder k.
Arguments ShowInputBox {A} placeHolder validateInput k.
Arguments Execa {A} file args cwd k.
Arguments ExecuteCommand {A} command k.
Arguments AppendLine {A} line k.
Arguments ChannelShow {A} k.
Arguments ShowErrorMessage {A} text k.

Fixpoint bind {A B : Type} (p : Prog A) (f : A -> Prog B) : Prog B :=
  match p with
  | Ret a => f a
  | Throw e => Throw e
  | ShowQuickPick picks q k => ShowQuickPick picks q (fun r => bind (k r) f)
  | ShowInputBox q v k => ShowInputBox q v (fun r => bind (k r) f)
  | Execa file args cwd k => Execa file args cwd (fun r => bind (k r) f)
  | ExecuteCommand c k => ExecuteCommand c (fun r => bind (k r) f)
  | AppendLine l k => AppendLine l (bind k f)
  | ChannelShow k => ChannelShow (bind k f)
  | ShowErrorMessage t k => ShowErrorMessage t (bind k f)
  end.

(** [try { p } catch (e) { handler e }] *)
Fixpoint tryCatch {A : Type} (p : Prog A) (handler : Error.t -> Prog A) : Prog A :=
  match p with
  | Ret a => Ret a
  | Throw e => handler e
  | ShowQuickPick picks q k => ShowQuickPick picks q (fun r => tryCatch (k r) handler)
  | ShowInputBox q v k => ShowInputBox q v (fun r => tryCatch (k r) handler)
  | Execa file args cwd k => Execa file args cwd (fun r => tryCatch (k r) handler)
  | ExecuteCommand c k => ExecuteCommand c (fun r => tryCatch (k r) handler)
  | AppendLine l k => AppendLine l (tryCatch k handler)
  | ChannelShow k => ChannelShow (tryCatch k handler)
  | ShowErrorMessage t k => ShowErrorMessage t (tryCatch k handler)
  end.

Declare Scope prog_scope.
Delimit Scope prog_scope with prog.
Notation "'let*' x ':=' p 'in' q" := (bind p (fun x => q))
  (at level 10, x name, p at level 100, q at level 200) : prog_scope.
Notation "'let*' ' pat ':=' p 'in' q" := (bind p (fun x => match x with pat => q end))
  (at level 10, pat pattern, p at level 100, q at level 200) : prog_scope.
Notation "p ;; q" := (bind p (fun _ => q))
  (at level 100, q at level 200, right associativity) : prog_scope.
Local Open Scope prog_scope.

(** The calls, as the code awaits them. *)
Definition showQuickPick (picks : list QuickPickItem) (placeHolder : string)
  : Prog (option QuickPickItem) :=
  ShowQuickPick picks placeHolder Ret.

Definition showInputBox (placeHolder : string) (validateInput : option (string -> string))
  : Prog (option string) :=
  ShowInputBox placeHolder validateInput Ret.

Definition execa (file : string) (args : list string) (cwd : string) : Prog ExecaResult :=
  Execa file args cwd (fun r =>
    match r with
    | inl e => Throw e
    | inr result => Ret result
    end).

Definition executeCommand (command : string) : Prog unit :=
  ExecuteCommand command (fun r =>
    match r with
    | Some e => Throw e
    | None => Ret tt
    end).

Definition appendLine (line : string) : Prog unit := AppendLine line (Ret tt).
Definition show : Prog unit := ChannelShow (Ret tt).
Definition showErrorMessage (text : string) : Prog unit := ShowErrorMessage text (Ret tt).

(** [completion c] is the evaluation of an expression inside an [async]
    function. *)
Definition completion {A : Type} (c : Completion A) : Prog A :=
  match c with
  | Normal a => Ret a
  | Throws e => Throw e
  end.

(** [items.forEach(f)] *)
Fixpoint forEach {A : Type} (items : list A) (f : A -> Prog unit) : Prog unit :=
  match items with
  | [] => Ret tt
  | x :: rest => f x ;; forEach rest f
  end.

(** *** Runs

    What the user and the host do is an [Environment]: the answer to each
    call, given the calls made before and their answers. A run gives how
    the program ends and the calls it made, each with its answer, in
    order. *)
Inductive Entry :=
| QuickPickShown (picks : list QuickPickItem) (placeHolder : string)
    (answer : option QuickPickItem)
| InputBoxShown (placeHolder : string) (validateInput : option (string -> string))
    (answer : option string)
| Executed (file : string) (args : list string) (cwd : string)
    (outcome : Error.t + ExecaResult)
| CommandExecuted (command : string) (outcome : option Error.t)
| LineAppended (line : string)
| ChannelShown
| ErrorMessageShown (text : string).

Record Environment := {
  pickAnswer : list Entry -> list QuickPickItem -> string -> option QuickPickItem;
  inputAnswer : list Entry -> string -> option (string -> string) -> option string;
  execaOutcome : list Entry -> string -> list string -> string -> Error.t + ExecaResult;
  commandOutcome : list Entry -> string -> option Error.t }.

Definition after {A : Type} (entry : Entry) (rest : Completion A * list Entry)
  : Completion A * list Entry :=
  (fst rest, entry :: snd rest).

(** [run env p past]: the run of [p] after the calls [past]. *)
Fixpoint run {A : Type} (env : Environment) (p : Prog A) (past : list Entry)
  : Completion A * list Entry :=
  match p with
  | Ret a => (Normal a, [])
  | Throw e => (Throws e, [])
  | ShowQuickPick picks q k =>
      let answer := pickAnswer env past picks q in
      let entry := QuickPickShown picks q answer in
      after entry (run env (k answer) (past ++ [entry]))
  | ShowInputBox q v k =>
      let answer := inputAnswer env past q v in
      let entry := InputBoxShown q v answer in
      after entry (run env (k answer) (past ++ [entry]))
  | Execa file args cwd k =>
      let outcome := execaOutcome env past file args cwd in
      let entry := Executed file args cwd outcome in
      after entry (run env (k outcome) (past ++ [entry]))
  | ExecuteCommand c k =>
      let outcome := commandOutcome env past c in
      let entry := CommandExecuted c outcome in
      after entry (run env (k outcome) (past ++ [entry]))
  | AppendLine l k => after (LineAppended l) (run env k (past ++ [LineAppended l]))
  | ChannelShow k => after ChannelShown (run env k (past ++ [ChannelShown]))
  | ShowErrorMessage t k =>
      after (ErrorMessageShown t) (run env k (past ++ [ErrorMessageShown t]))
  end.

(** How a run ends and the calls it makes. *)
Definition outcome {A : Type} (env : Environment) (p : Prog A) (past : list Entry)
  : Completion A :=
  fst (run env p past).

Definition calls {A : Type} (env : Environment) (p : Prog A) (past : list Entry)
  : list Entry :=
  snd (run env p past).

(** ** The host *)

(** What the code reads from the editor: the [commitizen] settings, the
    [git.enableSmartCommit] setting and the workspace folders. *)
Record Host := {
  configuration : Configuration;
  enableSmartCommit : option bool;
  workspaceFolders : option (list string) }.

(** ** Prompts *)

(** [ask(question, save, validate?)]: [save] writes to the object [this] of
    its caller. *)
Definition ask {S : Type} (question : string) (save : string -> S -> S)
  (validate : option (string -> string)) (this : S) : Prog (bool * S) :=
  let* input := showInputBox question validate in
  match input with
  | None => Ret (false, this)
  | Some i => Ret (true, save i this)
  end.

(** [pick.label === customLabel] *)
Definition label_is (v : Value) (customLabel : option string) : bool :=
  match v, customLabel with
  | VStr s, Some l => String.eqb s l
  | _, _ => false
  end.

(** [!!customQuestion] and [customQuestion || ''] *)
Definition given (o : option string) : bool := default false (truthy <$> o).
Definition or_empty (o : option string) : string :=
  match o with
  | Some s => if truthy s then s else ""
  | None => ""
  end.

(** [askOneOf(question, picks, save, customLabel?, customQuestion?)] *)
Definition askOneOf {S : Type} (question : string) (picks : list QuickPickItem)
  (save : QuickPickItem -> S -> S) (customLabel customQuestion : option string)
  (this : S) : Prog (bool * S) :=
  let* pick := showQuickPick picks question in
  match pick with
  | Some p =>
      if label_is (label p) customLabel && given customQuestion then
        let* next := ask (or_empty customQuestion)
                       (fun input => save {| label := VStr input; description := "" |})
                       None this in
        Ret next
      else Ret (true, save p this)
  | None => Ret (false, this)
  end.

(** ** The wizard object *)

(** The keys of [DEFAULT_MESSAGES], which are the message types the code
    asks for. *)
Inductive MessageType :=
| MType | MCustomScope | MCustomScopeEntry | MScope
| MSubject | MBody | MBreaking | MFooter.

Definition key (messageType : MessageType) : string :=
  match messageType with
  | MType => "type"
  | MCustomScope => "customScope"
  | MCustomScopeEntry => "customScopeEntry"
  | MScope => "scope"
  | MSubject => "subject"
  | MBody => "body"
  | MBreaking => "breaking"
  | MFooter => "footer"
  end.

Definition DEFAULT_MESSAGES (messageType : MessageType) : string :=
  match messageType with
  | MType => "Select the type of change that you're committing"
  | MCustomScope => "Denote the SCOPE of this change"
  | MCustomScopeEntry => "Custom scope..."
  | MScope => "Denote the SCOPE of this change (optional)"
  | MSubject => "Write a SHORT, IMPERATIVE tense description of the change"
  | MBody =>
      "Provide a LONGER description of the change (optional). Use "
      +:+ String "034"%char "|" +:+ String "034"%char " to break new line"
  | MBreaking => "List any BREAKING CHANGES (optional)"
  | MFooter => "List any ISSUES CLOSED by this change (optional). E.g.: #31, #34"
  end.

Record ConventionalCommitMessage := {
  czConfig : option CzConfig;
  next : bool;
  type : option Value;
  scope : option Value;
  subject : option string;
  body : option string;
  breaking : option string;
  footer : option string }.

(** [new ConventionalCommitMessage(czConfig)] *)
Definition new (czConfig : option CzConfig) : ConventionalCommitMessage :=
  {| czConfig := czConfig; next := true; type := None; scope := None;
     subject := None; body := None; breaking := None; footer := None |}.

(** Assignments to the fields. *)
Definition set_next (b : bool) (this : ConventionalCommitMessage) :=
  {| czConfig := czConfig this; next := b; type := type this; scope := scope this;
     subject := subject this; body := body this; breaking := breaking this;
     footer := footer this |}.
Definition set_type (v : option Value) (this : ConventionalCommitMessage) :=
  {| czConfig := czConfig this; next := next this; type := v; scope := scope this;
     subject := subject this; body := body this; breaking := breaking this;
     footer := footer this |}.
Definition set_scope (v : option Value) (this : ConventionalCommitMessage) :=
  {| czConfig := czConfig this; next := next this; type := type this; scope := v;
     subject := subject this; body := body this; breaking := breaking this;
     footer := footer this |}.
Definition set_subject (v : option string) (this : ConventionalCommitMessage) :=
  {| czConfig := czConfig this; next := next this; type := type this; scope := scope this;
     subject := v; body := body this; breaking := breaking this;
     footer := footer this |}.
Definition set_body (v : option string) (this : ConventionalCommitMessage) :=
  {| czConfig := czConfig this; next := next this; type := type this; scope := scope this;
     subject := subject this; body := v; breaking := breaking this;
     footer := footer this |}.
Definition set_breaking (v : option string) (this : ConventionalCommitMessage) :=
  {| czConfig := czConfig this; next := next this; type := type this; scope := scope this;
     subject := subject this; body := body this; breaking := v;
     footer := footer this |}.
Definition set_footer (v : option string) (this : ConventionalCommitMessage) :=
  {| czConfig := czConfig this; next := next this; type := type this; scope := scope this;
     subject := subject this; body := body this; breaking := breaking this;
     footer := v |}.

(** *** Static members *)

Definition shouldSkip (czConfig : option CzConfig) (messageType : MessageType) : bool :=
  match czConfig ≫= skipQuestions with
  | Some skip => existsb (String.eqb (key messageType)) skip
  | None => false
  end.

Definition hasScopes (czConfig : option CzConfig) : bool :=
  match czConfig ≫= scopes with
  | Some l => negb (length l =? 0)
  | None => false
  end.

Definition hasCustomMessage (czConfig : option CzConfig) (messageType : MessageType) : bool :=
  match czConfig ≫= messages with
  | Some m => bool_decide (is_Some (m !! key messageType))
  | None => false
  end.

(** [scope.name || scope]: the name of a scope object when it has a
    non-empty one, the entry itself otherwise. *)
Definition scopeLabel (scope : Value) : Value :=
  match scope with
  | VObj (Some n) => if truthy n then VStr n else scope
  | _ => scope
  end.

(** [getScopePicks(czConfig, inputMessage)]: [inputMessage] is the function
    it is given, whose call may throw. *)
Definition getScopePicks (czConfig : CzConfig)
  (inputMessage : MessageType -> Completion string) : Completion (list QuickPickItem) :=
  let scopePicks :=
    map (fun scope => {| label := scopeLabel scope; description := "" |})
        (default [] (scopes czConfig)) in
  if allowCustomScopes czConfig then
    match inputMessage MCustomScopeEntry with
    | Normal text => Normal (scopePicks ++ [ {| label := VStr text; description := "" |} ])
    | Throws e => Throws e
    end
  else Normal scopePicks.

(** *** Instance members *)

(** [this.inputMessage(messageType)] *)
Definition inputMessage (this : ConventionalCommitMessage) (messageType : MessageType)
  : string :=
  if hasCustomMessage (czConfig this) messageType
  then default "" ((czConfig this ≫= messages) ≫= lookup (key messageType))
  else DEFAULT_MESSAGES messageType.

(** The method [inputMessage] called with the given receiver. A call
    [this.inputMessage(t)] has the object as receiver. A call through the
    function value [this.inputMessage] alone has none: the code of a module
    is strict, there [this] is [undefined] and reading [this.czConfig]
    throws. *)
Definition inputMessage_call (receiver : option ConventionalCommitMessage)
  (messageType : MessageType) : Completion string :=
  match receiver with
  | None => Throws (TypeError "czConfig")
  | Some this => Normal (inputMessage this messageType)
  end.

(** [pick.label || undefined] *)
Definition or_undefined (v : Value) : option Value :=
  if value_truthy v then Some v else None.

Definition getType (this : ConventionalCommitMessage) : Prog ConventionalCommitMessage :=
  if next this then
    let types := default DEFAULT_TYPES (czConfig this ≫= types) in
    let typePicks :=
      map (fun type => {| label := VStr (value type); description := name type |}) types in
    let* '(n, this) := askOneOf (inputMessage this MType) typePicks
                         (fun pick => set_type (Some (label pick))) None None this in
    Ret (set_next n this)
  else Ret this.

Definition getScope (this : ConventionalCommitMessage) : Prog ConventionalCommitMessage :=
  if next this then
    if hasScopes (czConfig this) then
      match czConfig this with
      | Some czConfig =>
          match scopes czConfig with
          | Some (_ :: _) =>
              let* scopePicks := completion (getScopePicks czConfig (inputMessage_call None)) in
              let* '(n, this) := askOneOf (inputMessage this MCustomScope) scopePicks
                                   (fun pick => set_scope (or_undefined (label pick)))
                                   (Some (inputMessage this MCustomScopeEntry))
                                   (Some (inputMessage this MCustomScope)) this in
              Ret (set_next n this)
          | _ => Ret this
          end
      | None => Ret this
      end
    else if negb (shouldSkip (czConfig this) MScope) then
      let* '(n, this) := ask (inputMessage this MScope)
                           (fun input => set_scope (Some (VStr input))) None this in
      Ret (set_next n this)
    else Ret this
  else Ret this.

(** The decimal text of a number, for the template literal: that of an
    integer below 10^21, which the run time prints digit by digit. *)
Definition number_to_string (z : Z) : string :=
  NilZero.string_of_int (Z.to_int z).

Definition getSubject (host : Host) (this : ConventionalCommitMessage)
  : Prog ConventionalCommitMessage :=
  if next this then
    let maxLength := subjectLength (configuration host) in
    let validator := fun input : string =>
      if (String.length input =? 0) || (maxLength <? Z.of_nat (String.length input))%Z
      then "Subject is required and must be less than "
           +:+ number_to_string maxLength +:+ " characters"
      else "" in
    let* '(n, this) := ask (inputMessage this MSubject)
                         (fun input => set_subject (Some input)) (Some validator) this in
    Ret (set_next n this)
  else Ret this.

Definition getBody (this : ConventionalCommitMessage) : Prog ConventionalCommitMessage :=
  if next this && negb (shouldSkip (czConfig this) MBody) then
    let* '(n, this) := ask (inputMessage this MBody)
                         (fun input => set_body (Some (wrap (join nl (split "|"%char input)) 72)))
                         None this in
    Ret (set_next n this)
  else Ret this.

Definition getBreaking (this : ConventionalCommitMessage) : Prog ConventionalCommitMessage :=
  if next this && negb (shouldSkip (czConfig this) MBreaking) then
    let* '(n, this) := ask (inputMessage this MBreaking)
                         (fun input => set_breaking (Some input)) None this in
    Ret (set_next n this)
  else Ret this.

Definition getFooter (this : ConventionalCommitMessage) : Prog ConventionalCommitMessage :=
  if next this && negb (shouldSkip (czConfig this) MFooter) then
    let* '(n, this) := ask (inputMessage this MFooter)
                         (fun input => set_footer (Some input)) None this in
    Ret (set_next n this)
  else Ret this.

(** [get complete()] *)
Definition complete (this : ConventionalCommitMessage) : bool :=
  next this
  && default false (value_truthy <$> type this)
  && default false (truthy <$> subject this).

Definition messageFooter (this : ConventionalCommitMessage) : string :=
  match footer this with
  | Some f =>
      if truthy f then
        match czConfig this ≫= footerPrefix with
        | Some p => if truthy p then p +:+ f else "Closes " +:+ f
        | None => "Closes " +:+ f
        end
      else ""
  | None => ""
  end.

(** The [(scope)] part of the header. *)
Definition scopePart (this : ConventionalCommitMessage) : string :=
  match scope this with
  | Some (VStr s) => if truthy s then "(" +:+ s +:+ ")" else ""
  | _ => ""
  end.

(** The [BREAKING CHANGE] line. *)
Definition breakingPart (this : ConventionalCommitMessage) : string :=
  match breaking this with
  | Some b => if truthy b then "BREAKING CHANGE: " +:+ b +:+ nl else ""
  | None => ""
  end.

(** [get message()]: [czTypes] is [this.czConfig && this.czConfig.types],
    and [czTypes!.filter] throws when it is [undefined]. *)
Definition message (this : ConventionalCommitMessage) : Completion string :=
  match czConfig this ≫= types with
  | None => Throws (TypeError "filter")
  | Some czTypes =>
      let emojiEntry :=
        List.filter (fun eachEmoji => strict_eq (value eachEmoji) (type this)) czTypes in
      let emoji := match emojiEntry with
                   | e :: _ => emojiCode e
                   | [] => ""
                   end in
      Normal (template_value (type this) +:+ scopePart this +:+
              ": " +:+ emoji +:+ " " +:+ template (subject this) +:+ nl +:+ nl +:+
              template (body this) +:+ nl +:+ nl +:+
              breakingPart this +:+ messageFooter this)
  end.

(** ** Committing *)

Definition hasOutput (result : ExecaResult) : bool := truthy (stdout result).

Definition shouldShowOutput (host : Host) (result : ExecaResult) : bool :=
  match showOutputChannel (configuration host) with
  | Always => true
  | OnError => (0 <? code result)%N
  | Off => false
  end.

Definition hasStagedFiles (cwd : string) : Prog bool :=
  let* result := execa "git" ["diff"; "--name-only"; "--cached"] cwd in
  Ret (hasOutput result).

Definition conditionallyStageFiles (host : Host) (cwd : string) : Prog unit :=
  let hasSmartCommitEnabled :=
    match enableSmartCommit host with
    | Some true => true
    | _ => false
    end in
  let* stage :=
    (if hasSmartCommitEnabled
     then let* staged := hasStagedFiles cwd in Ret (negb staged)
     else Ret false) in
  if stage : bool then
    appendLine "Staging all files (enableSmartCommit enabled with nothing staged)" ;;
    executeCommand "git.stageAll"
  else Ret tt.

Definition commit (host : Host) (cwd : string) (message : string) : Prog unit :=
  appendLine ("About to commit '" +:+ message +:+ "'") ;;
  tryCatch
    (conditionallyStageFiles host cwd ;;
     let* result := execa "git" ["commit"; "-m"; message] cwd in
     executeCommand "git.refresh" ;;
     (if autoSync (configuration host) then executeCommand "git.sync" else Ret tt) ;;
     if hasOutput result then
       forEach (split LF (stdout result)) appendLine ;;
       if shouldShowOutput host result then show else Ret tt
     else Ret tt)
    (fun e =>
       showErrorMessage (Error.message e) ;;
       appendLine (Error.message e) ;;
       appendLine (Error.stack e)).

(** The command [vscode-commitizen.commit] registered by [activate]. *)
Definition commitCommand (host : Host) (czConfig : option CzConfig) : Prog unit :=
  let ccm := new czConfig in
  let* ccm := getType ccm in
  let* ccm := getScope ccm in
  let* ccm := getSubject host ccm in
  let* ccm := getBody ccm in
  let* ccm := getBreaking ccm in
  let* ccm := getFooter ccm in
  if complete ccm then
    match workspaceFolders host with
    | Some (folder :: _) =>
        let* text := completion (message ccm) in
        commit host folder (trim text)
    | Some [] => Throw (TypeError "uri")
    | None => Ret tt
    end
  else Ret tt.

(** ** Notions used in the statements *)



(** An [Environment] that answers every prompt with the same pick and the
    same text, and in which every call succeeds with the same result. *)
Definition steady (pick : option QuickPickItem) (input : option string)
  (result : ExecaResult) : Environment :=
  {| pickAnswer := fun _ _ _ => pick;
     inputAnswer := fun _ _ _ => input;
     execaOutcome := fun _ _ _ _ => inr result;
     commandOutcome := fun _ _ => None |}.

(** A configuration that defines the built-in type table and nothing
    else. *)
Definition defaultTable : CzConfig :=
  {| types := Some DEFAULT_TYPES; scopes := None; messages := None;
     allowCustomScopes := false; allowBreakingChanges := [];
     footerPrefix := None; skipQuestions := None |}.

(** The answers of the end-to-end scenario: type [feat], scope [api],
    subject [add health endpoint], footer [#42], no breaking change. *)
Definition scenario (czConfig : option CzConfig) (body : option string)
  : ConventionalCommitMessage :=
  {| czConfig := czConfig; next := true;
     type := Some (VStr "feat"); scope := Some (VStr "api");
     subject := Some "add health endpoint"; body := body;
     breaking := None; footer := Some "#42" |}.

(** The six steps, in the order of the command. *)
Definition steps (host : Host)
  : list (ConventionalCommitMessage -> Prog ConventionalCommitMessage) :=
  [getType; getScope; getSubject host; getBody; getBreaking; getFooter].

(** A prompt that the user dismissed. *)
Definition cancelled (entry : Entry) : Prop :=
  match entry with
  | QuickPickShown _ _ None | InputBoxShown _ _ None => True
  | _ => False
  end.

(** What [execa] does with the exit status. The calls of the code do not
    pass [reject: false], so the promise of a process that exits with a
    status other than 0 rejects, and the code receives an error, not a
    result: an answer that resolves carries the status 0. *)
Definition rejects_failed_processes (env : Environment) : Prop :=
  forall past file args cwd result,
    execaOutcome env past file args cwd = inr result -> code result = 0%N.

(** The error of [execa] for a [git commit] that exited with status 1, as
    it does with nothing to commit. The texts are the package's; no result
    depends on them. *)
Definition commitFailed : Error.t :=
  {| Error.message := "Command failed: git commit -m fix: typo";
     Error.stack := "Error: Command failed: git commit -m fix: typo" |}.

(** An [Environment] in which every process fails with the same error,
    as [git commit] does when it exits with a status other than 0, and
    every editor command succeeds. *)
Definition failing (e : Error.t) : Environment :=
  {| pickAnswer := fun _ _ _ => None;
     inputAnswer := fun _ _ _ => None;
     execaOutcome := fun _ _ _ _ => inl e;
     commandOutcome := fun _ _ => None |}.

(** A configuration with an empty scope among its scopes. *)
Definition blankScope : CzConfig :=
  {| types := Some DEFAULT_TYPES; scopes := Some [VStr ""; VStr "api"];
     messages := None; allowCustomScopes := false; allowBreakingChanges := [];
     footerPrefix := None; skipQuestions := None |}.

(** ** Reading the configuration file *)

(** A value made by [JSON.parse]. Of a number the code only observes
    whether it is zero. *)
#[warnings="-register-all"] Inductive Json :=
| JNull
| JBool (b : bool)
| JNumber (zero : bool)
| JString (s : string)
| JArray (items : list Json)
| JObject (members : list (string * Json)).

(** [Boolean(v)] *)
Definition json_truthy (v : Json) : bool :=
  match v with
  | JNull => false
  | JBool b => b
  | JNumber zero => negb zero
  | JString s => truthy s
  | JArray _ | JObject _ => true
  end.

(** [v.key] or [v[key]] for a value [v] other than [null] and for the keys
    [config] and [cz-customizable]: the member of an object (the last one
    of that name, as the parser keeps it), [undefined] for any other
    value. *)
Definition member (key : string) (v : Json) : option Json :=
  match v with
  | JObject members =>
      snd <$> List.find (fun m => String.eqb (fst m) key) (rev members)
  | _ => None
  end.

(** [a && a.key], as a condition and as a value. *)
Definition and_member (key : string) (a : option Json) : option Json :=
  match a with
  | Some v => if json_truthy v then member key v else Some v
  | None => None
  end.

Definition option_truthy (a : option Json) : bool :=
  default false (json_truthy <$> a).

(** [hasCzConfig(pkg)] for a package other than [null] (on [null] reading
    [pkg.config] throws; [readCzConfig] calls it on truthy packages
    only): the value of
    [pkg.config && pkg.config['cz-customizable'] && pkg.config['cz-customizable'].config];
    the package is configured when it is truthy. *)
Definition czCustomizableConfig (pkg : Json) : option Json :=
  and_member "config" (and_member "cz-customizable" (member "config" pkg)).

Definition hasCzConfig (pkg : Json) : bool :=
  option_truthy (czCustomizableConfig pkg).

(** The reading of files as a finite tree, like [Prog]: [sander.exists],
    [sander.readFile] and [require], each with what it resolves to. What
    [require] returns is used as a configuration; a module that exports a
    falsy value is [None]. *)
Inductive Read (A : Type) : Type :=
| Got (a : A)
| Failed (e : Error.t)
| FileExists (path : string) (k : bool -> Read A)
| FileRead (path : string) (k : Error.t + string -> Read A)
| ModuleRequired (path : string) (k : Error.t + option CzConfig -> Read A).
Arguments Got {A} a.
Arguments Failed {A} e.
Arguments FileExists {A} path k.
Arguments FileRead {A} path k.
Arguments ModuleRequired {A} path k.

Fixpoint bindRead {A B : Type} (p : Read A) (f : A -> Read B) : Read B :=
  match p with
  | Got a => f a
  | Failed e => Failed e
  | FileExists path k => FileExists path (fun r => bindRead (k r) f)
  | FileRead path k => FileRead path (fun r => bindRead (k r) f)
  | ModuleRequired path k => ModuleRequired path (fun r => bindRead (k r) f)
  end.

Declare Scope read_scope.
Delimit Scope read_scope with read.
Notation "'let*' x ':=' p 'in' q" := (bindRead p (fun x => q))
  (at level 10, x name, p at level 100, q at level 200) : read_scope.

(** The file accesses of a run, each with its answer, and what the file
    system answers given the accesses before. *)
Inductive Access :=
| Checked (path : string) (found : bool)
| FileWasRead (path : string) (outcome : Error.t + string)
| Required (path : string) (outcome : Error.t + option CzConfig).

Record FileSystem := {
  existsAnswer : list Access -> string -> bool;
  readOutcome : list Access -> string -> Error.t + string;
  requireOutcome : list Access -> string -> Error.t + option CzConfig }.

Fixpoint runRead {A : Type} (fs : FileSystem) (p : Read A) (past : list Access)
  : Completion A * list Access :=
  match p with
  | Got a => (Normal a, [])
  | Failed e => (Throws e, [])
  | FileExists path k =>
      let found := existsAnswer fs past path in
      let rest := runRead fs (k found) (past ++ [Checked path found]) in
      (fst rest, Checked path found :: snd rest)
  | FileRead path k =>
      let outcome := readOutcome fs past path in
      let rest := runRead fs (k outcome) (past ++ [FileWasRead path outcome]) in
      (fst rest, FileWasRead path outcome :: snd rest)
  | ModuleRequired path k =>
      let outcome := requireOutcome fs past path in
      let rest := runRead fs (k outcome) (past ++ [Required path outcome]) in
      (fst rest, Required path outcome :: snd rest)
  end.

(** The error of [path.join] for an argument that is not a string. The
    text is the platform's; no result depends on it. *)
Definition pathTypeError : Error.t :=
  {| Error.message := "Path must be a string";
     Error.stack := "TypeError: Path must be a string" |}.

Section Files.

Local Open Scope read_scope.

(** [path.join] for two segments and [JSON.parse]: of the platform, taken
    as they are. *)
Variable path_join : string -> string -> string.
Variable JSON_parse : string -> Completion Json.

Definition sander_exists (path : string) : Read bool := FileExists path Got.

Definition sander_readFile (path : string) : Read string :=
  FileRead path (fun r =>
    match r with
    | inl e => Failed e
    | inr text => Got text
    end).

Definition require (path : string) : Read (option CzConfig) :=
  ModuleRequired path (fun r =>
    match r with
    | inl e => Failed e
    | inr exports => Got exports
    end).

(** [readPackageJson()] *)
Definition readPackageJson (host : Host) : Read (option Json) :=
  match workspaceFolders host with
  | None => Got None
  | Some [] => Failed (TypeError "uri")
  | Some (folder :: _) =>
      let pkgPath := path_join folder "package.json" in
      let* found := sander_exists pkgPath in
      if negb found then Got None
      else
        let* text := sander_readFile pkgPath in
        match JSON_parse text with
        | Normal pkg => Got (Some pkg)
        | Throws e => Failed e
        end
  end.

(** [readCzConfig()] *)
Definition readCzConfig (host : Host) : Read (option CzConfig) :=
  match workspaceFolders host with
  | None => Got None
  | Some [] => Failed (TypeError "uri")
  | Some (folder :: _) =>
      let configPath := path_join folder ".cz-config.js" in
      let* found := sander_exists configPath in
      if found then require configPath
      else
        let* pkg := readPackageJson host in
        if negb (option_truthy pkg) then Got None
        else
          let* configPath :=
            match pkg with
            | Some pkg =>
                if hasCzConfig pkg then
                  match czCustomizableConfig pkg with
                  | Some (JString relative) => Got (path_join folder relative)
                  | _ => Failed pathTypeError
                  end
                else Got (path_join folder ".cz-config.js")
            | None => Got (path_join folder ".cz-config.js")
            end in
          let* found := sander_exists configPath in
          if negb found then Got None else require configPath
  end.

End Files.

(** ** More notions used in the statements *)

(** A call that is a prompt. *)
Definition is_prompt (entry : Entry) : Prop :=
  match entry with
  | QuickPickShown _ _ _ | InputBoxShown _ _ _ => True
  | _ => False
  end.

(** The steps one after the other, each on the object the one before
    returned. *)
Fixpoint runSteps (ss : list (ConventionalCommitMessage -> Prog ConventionalCommitMessage))
  (this : ConventionalCommitMessage) : Prog ConventionalCommitMessage :=
  match ss with
  | [] => Ret this
  | step :: rest => bind (step this) (runSteps rest)
  end.

(** The end of the command [vscode-commitizen.commit], after the steps. *)
Definition commitWhenComplete (host : Host) (ccm : ConventionalCommitMessage)
  : Prog unit :=
  if complete ccm then
    match workspaceFolders host with
    | Some (folder :: _) => bind (completion (message ccm)) (fun text => commit host folder (trim text))
    | Some [] => Throw (TypeError "uri")
    | None => Ret tt
    end
  else Ret tt.

(** A call that failed, with its error. *)
Definition failed_with (e : Error.t) (entry : Entry) : Prop :=
  match entry with
  | Executed _ _ _ (inl e') => e' = e
  | CommandExecuted _ (Some e') => e' = e
  | _ => False
  end.

(** [contains c s]: the character [c] occurs in [s]. *)
Fixpoint contains (c : ascii) (s : string) : bool :=
  match s with
  | EmptyString => false
  | String x s' => Ascii.eqb x c || contains c s'
  end.

(** The answers of the wizard, and the steps with the answer each one
    asks for. *)
Inductive Field := FType | FScope | FSubject | FBody | FBreaking | FFooter.

Definition step_fields (host : Host)
  : list ((ConventionalCommitMessage -> Prog ConventionalCommitMessage) * Field) :=
  [(getType, FType); (getScope, FScope); (getSubject host, FSubject);
   (getBody, FBody); (getBreaking, FBreaking); (getFooter, FFooter)].

(** [same_but field this this']: the configuration and every answer other
    than [field] are the same in [this'] as in [this]. *)
Definition same_but (field : Field) (this this' : ConventionalCommitMessage) : Prop :=
  czConfig this' = czConfig this
  /\ (field <> FType -> type this' = type this)
  /\ (field <> FScope -> scope this' = scope this)
  /\ (field <> FSubject -> subject this' = subject this)
  /\ (field <> FBody -> body this' = body this)
  /\ (field <> FBreaking -> breaking this' = breaking this)
  /\ (field <> FFooter -> footer this' = footer this).

(** A host with the given settings and one workspace folder. *)
Definition hostAt (folder : string) (sync : bool) (mode : ShowOutputChannel)
  (smart : option bool) : Host :=
  {| configuration := {| autoSync := sync; subjectLength := 50;
                         showOutputChannel := mode |};
     enableSmartCommit := smart; workspaceFolders := Some [folder] |}.

(** A call that failed. *)
Definition failed (entry : Entry) : Prop :=
  match entry with
  | Executed _ _ _ (inl _) | CommandExecuted _ (Some _) => True
  | _ => False
  end.

(** What the handler of [commit] does with the error it caught. *)
Definition report (e : Error.t) : list Entry :=
  [ErrorMessageShown (Error.message e); LineAppended (Error.message e);
   LineAppended (Error.stack e)].

(** No call of the list but the last one is a dismissed prompt. *)
Fixpoint cancelled_only_last (cs : list Entry) : Prop :=
  match cs with
  | [] => True
  | entry :: rest =>
      match rest with
      | [] => True
      | _ :: _ => ~ cancelled entry /\ cancelled_only_last rest
      end
  end.

(** A text of ASCII characters: its length in the model is its [length]
    at run time. *)
Definition ascii_text (s : string) : Prop :=
  Forall (fun c => nat_of_ascii c < 128) (list_ascii_of_string s).

(** Two path segments joined with a slash, a file system that holds the
    given files, and a package that names a configuration file: for the
    examples. *)
Definition joinWithSlash (a b : string) : string := a +:+ "/" +:+ b.

Definition files (present : list string) (text : Error.t + string)
  (exports : Error.t + option CzConfig) : FileSystem :=
  {| existsAnswer := fun _ path => existsb (String.eqb path) present;
     readOutcome := fun _ _ => text;
     requireOutcome := fun _ _ => exports |}.

Definition packageNaming (relative : Json) : Json :=
  JObject [("config", JObject [("cz-customizable", JObject [("config", relative)])])].

(** ** What the steps keep *)

(** The calls [cs] put in front of the calls of a run. *)
Definition after_all {A : Type} (cs : list Entry) (rest : Completion A * list Entry)
  : Completion A * list Entry :=
  (fst rest, cs ++ snd rest).

(** What every step keeps: its calls are prompts; it returns unless it is
    the scope step stopped by the error of [getScopePicks]; the
    configuration stays; a cancelled wizard stays as it is; and [next]
    holds afterwards iff it held before and no prompt was dismissed. *)
Definition step_kept (this : ConventionalCommitMessage)
  (r : Completion ConventionalCommitMessage * list Entry) : Prop :=
  Forall is_prompt (snd r)
  /\ match fst r with
     | Normal this' =>
         czConfig this' = czConfig this
         /\ (next this = false -> this' = this /\ snd r = [])
         /\ (next this' = true <-> next this = true /\ ~ Exists cancelled (snd r))
     | Throws _ => snd r = [] /\ next this = true
     end.

(** What a sequence of steps keeps. *)
Definition steps_kept (this : ConventionalCommitMessage)
  (r : Completion ConventionalCommitMessage * list Entry) : Prop :=
  Forall is_prompt (snd r)
  /\ match fst r with
     | Normal this' =>
         czConfig this' = czConfig this
         /\ (next this' = true <-> next this = true /\ ~ Exists cancelled (snd r))
     | Throws _ => next this = true /\ ~ Exists cancelled (snd r)
     end.

(** * Properties *)

(** ** Strings *)

Section Strings.

Lemma append_nil_r (s : string) : s +:+ "" = s.
Proof. induction s as [|c s IH]; simpl; [reflexivity | now rewrite IH]. Qed.

Lemma append_assoc (s t u : string) : (s +:+ t) +:+ u = s +:+ (t +:+ u).
Proof. induction s as [|c s IH]; simpl; [reflexivity | now rewrite IH]. Qed.


Lemma truthy_spec (s : string) : truthy s = true <-> s <> "".
Proof.
  unfold truthy. destruct (String.eqb_spec s ""); simpl; split; intros; congruence.
Qed.

Lemma truthy_empty : truthy "" = false.
Proof. reflexivity. Qed.









End Strings.

(** ** Hard wrapping *)

Section Wrap.

Variable cols : nat.
Hypothesis cols_pos : 1 <= cols.













End Wrap.

(** Two runs of the wrapping: a break between words, and a word wider
    than a line cut into pieces. *)
Example wrap_between_words :
  wrap "add the health endpoint" 10 = "add the" +:+ nl +:+ "health" +:+ nl +:+ "endpoint".
Proof. reflexivity. Qed.

Example wrap_long_word :
  wrap "an unbreakableidentifier" 8
  = "an" +:+ nl +:+ "unbreaka" +:+ nl +:+ "bleident" +:+ nl +:+ "ifier".
Proof. reflexivity. Qed.


(** ** The body step *)

Section Body.



End Body.


(** ** The rendered message *)

Section Message.

Lemma messageFooter_unset (this : ConventionalCommitMessage) :
  messageFooter (set_footer None this) = "".
Proof. reflexivity. Qed.

(** The message is the message without footer followed by the footer
    part. *)
Lemma message_footer_last (this : ConventionalCommitMessage) (czTypes : list CommitType) :
  czConfig this ≫= types = Some czTypes ->
  exists head,
    message (set_footer None this) = Normal head
    /\ message this = Normal (head +:+ messageFooter this).
Proof.
  intros Htypes. unfold message.
  change (czConfig (set_footer None this)) with (czConfig this).
  rewrite Htypes.
  change (type (set_footer None this)) with (type this).
  change (scopePart (set_footer None this)) with (scopePart this).
  change (subject (set_footer None this)) with (subject this).
  change (body (set_footer None this)) with (body this).
  change (breakingPart (set_footer None this)) with (breakingPart this).
  rewrite messageFooter_unset.
  eexists. split; [reflexivity|].
  rewrite !append_assoc. reflexivity.
Qed.

(** With types defined the rendering returns; the emoji is the
    [emojiCode] of the first entry for the type, and empty when there is
    none. *)
Lemma message_returns (this : ConventionalCommitMessage) (czTypes : list CommitType) :
  czConfig this ≫= types = Some czTypes ->
  exists text, message this = Normal text.
Proof. intros Htypes. unfold message. rewrite Htypes. eexists. reflexivity. Qed.

Lemma message_no_entry (this : ConventionalCommitMessage) (czTypes : list CommitType) :
  czConfig this ≫= types = Some czTypes ->
  Forall (fun entry => strict_eq (value entry) (type this) = false) czTypes ->
  message this =
    Normal (template_value (type this) +:+ scopePart this +:+
            ": " +:+ "" +:+ " " +:+ template (subject this) +:+ nl +:+ nl +:+
            template (body this) +:+ nl +:+ nl +:+
            breakingPart this +:+ messageFooter this).
Proof.
  intros Htypes Hnone. unfold message. rewrite Htypes.
  assert (Hfilter : List.filter
                      (fun eachEmoji => strict_eq (value eachEmoji) (type this)) czTypes = []).
  { clear Htypes.
    induction Hnone as [|entry rest Hentry Hrest IH]; simpl; [reflexivity|].
    rewrite Hentry. exact IH. }
  now rewrite Hfilter.
Qed.

End Message.

(** C1 (as amended). With a configuration that defines the built-in type
    table, and the answers type "feat", scope "api", subject "add health
    endpoint", footer "#42", an empty body and no breaking change, the
    rendered, trimmed message is "feat(api): :sparkles: add health
    endpoint", three empty lines, "Closes #42"; ":sparkles:" is the emoji
    code of "feat" in the built-in type table. *)
Theorem message_scenario :
  exists text,
    message (scenario (Some defaultTable) (Some "")) = Normal text
    /\ trim text =
         "feat(api): :sparkles: add health endpoint" +:+ nl +:+ nl +:+ nl +:+ nl
         +:+ "Closes #42"
    /\ emojiCode <$> List.find (fun entry => String.eqb (value entry) "feat") DEFAULT_TYPES
       = Some ":sparkles:".
Proof. eexists. repeat split; reflexivity. Qed.

(** C1 as stated fails: without configuration the rendering throws; and
    with the built-in table configured and the body unset, the message has
    the emoji code and the text "undefined", not the glyph and an empty
    paragraph. *)
Lemma message_scenario_counterexample :
  message (scenario None None) = Throws (TypeError "filter")
  /\ message (scenario (Some defaultTable) None) =
       Normal ("feat(api): :sparkles: add health endpoint" +:+ nl +:+ nl
               +:+ "undefined" +:+ nl +:+ nl +:+ "Closes #42")
  /\ ~ (exists text,
          message (scenario None None) = Normal text
          /\ trim text =
               "feat(api): ✨ add health endpoint" +:+ nl +:+ nl +:+ nl +:+ nl
               +:+ "Closes #42").
Proof.
  repeat split; try reflexivity.
  intros (text & Hmessage & _). discriminate Hmessage.
Qed.

(** C2, at the failing input: without configuration, the rendering of any
    answer set throws instead of using the empty emoji. *)
Theorem message_without_configuration_throws
  (next : bool) (type scope : option Value) (subject body breaking footer : option string) :
  message {| czConfig := None; next := next; type := type; scope := scope;
             subject := subject; body := body; breaking := breaking;
             footer := footer |}
  = Throws (TypeError "filter").
Proof. reflexivity. Qed.

(** C4 (as amended). For every non-empty footer, the footer part is the
    prefix immediately followed by the footer, and it ends the rendered
    message; the prefix is the configured [footerPrefix] when that is
    defined and not empty, and "Closes " otherwise, also when it is
    configured as the empty string. *)
Theorem messageFooter_prefix (this : ConventionalCommitMessage) (f : string) :
  footer this = Some f -> f <> "" ->
  (forall p, czConfig this ≫= footerPrefix = Some p -> p <> "" ->
             messageFooter this = p +:+ f)
  /\ (czConfig this ≫= footerPrefix = None \/ czConfig this ≫= footerPrefix = Some "" ->
      messageFooter this = "Closes " +:+ f)
  /\ (forall czTypes, czConfig this ≫= types = Some czTypes ->
        exists head,
          message (set_footer None this) = Normal head
          /\ message this = Normal (head +:+ messageFooter this)).
Proof.
  intros Hfooter Hf. apply truthy_spec in Hf.
  unfold messageFooter. rewrite Hfooter, Hf.
  split; [|split].
  - intros p Hp Hne. apply truthy_spec in Hne. now rewrite Hp, Hne.
  - intros [Hp|Hp]; now rewrite Hp.
  - intros czTypes Htypes.
    destruct (message_footer_last this czTypes Htypes) as (head & Hhead & Hmessage).
    exists head. split; [exact Hhead|].
    rewrite Hmessage. unfold messageFooter. now rewrite Hfooter, Hf.
Qed.

Lemma messageFooter_prefix_witness :
  messageFooter
    (set_footer (Some "#42")
       (new (Some {| types := Some DEFAULT_TYPES; scopes := None; messages := None;
                     allowCustomScopes := false; allowBreakingChanges := [];
                     footerPrefix := Some "Fixes "; skipQuestions := None |})))
  = "Fixes #42".
Proof.
  refine (proj1 (messageFooter_prefix _ "#42" _ _) "Fixes " _ _);
    [reflexivity | discriminate | reflexivity | discriminate].
Defined.

(** C4 as stated fails: a [footerPrefix] configured as the empty string is
    not used; the footer part is "Closes #42", not "#42". *)
Lemma messageFooter_empty_prefix_counterexample :
  messageFooter
    (set_footer (Some "#42")
       (new (Some {| types := Some DEFAULT_TYPES; scopes := None; messages := None;
                     allowCustomScopes := false; allowBreakingChanges := [];
                     footerPrefix := Some ""; skipQuestions := None |})))
  = "Closes #42"
  /\ "Closes #42" <> "" +:+ "#42".
Proof. split; [reflexivity | discriminate]. Qed.

(** ** The steps of the wizard *)

Ltac unfold_step :=
  unfold getType, getScope, getSubject, getBody, getBreaking, getFooter,
    askOneOf, ask, showQuickPick, showInputBox, completion, outcome, calls.

Ltac no_cancelled :=
  repeat match goal with
         | H : Exists cancelled [] |- _ => inversion H
         | H : Exists cancelled (_ :: _) |- _ =>
             apply Exists_cons in H; destruct H as [H|H]; [now destruct H|]
         end.

Section Steps.

Variable host : Host.
Variable env : Environment.

(** The text of a prompt: the configured one when there is one, the
    built-in one otherwise. *)
Lemma inputMessage_custom (this : ConventionalCommitMessage) (messageType : MessageType)
  (text : string) :
  (czConfig this ≫= messages) ≫= lookup (key messageType) = Some text ->
  inputMessage this messageType = text.
Proof.
  intros Htext. unfold inputMessage, hasCustomMessage. rewrite Htext.
  destruct (czConfig this ≫= messages) as [m|]; [|discriminate Htext].
  simpl in Htext. rewrite Htext. now rewrite bool_decide_eq_true_2.
Qed.

Lemma inputMessage_default (this : ConventionalCommitMessage) (messageType : MessageType) :
  (czConfig this ≫= messages) ≫= lookup (key messageType) = None ->
  inputMessage this messageType = DEFAULT_MESSAGES messageType.
Proof.
  intros Htext. unfold inputMessage, hasCustomMessage.
  destruct (czConfig this ≫= messages) as [m|]; [|reflexivity].
  simpl in Htext. rewrite Htext. rewrite bool_decide_eq_false_2; [reflexivity|].
  intros [x Hx]. discriminate Hx.
Qed.

Lemma step_after_cancel (this : ConventionalCommitMessage) (past : list Entry)
  (step : ConventionalCommitMessage -> Prog ConventionalCommitMessage) :
  In step (steps host) -> next this = false ->
  step this = Ret this.
Proof.
  intros Hstep Hnext. simpl in Hstep.
  destruct Hstep as [<-|[<-|[<-|[<-|[<-|[<-|[]]]]]]];
    unfold_step; now rewrite Hnext.
Qed.

Lemma getType_run (this : ConventionalCommitMessage) (past : list Entry) :
  next this = true ->
  let picks := map (fun type => {| label := VStr (value type); description := name type |})
                   (default DEFAULT_TYPES (czConfig this ≫= types)) in
  let answer := pickAnswer env past picks (inputMessage this MType) in
  run env (getType this) past =
    (Normal match answer with
            | Some pick => set_next true (set_type (Some (label pick)) this)
            | None => set_next false this
            end,
     [QuickPickShown picks (inputMessage this MType) answer]).
Proof.
  intros Hnext. unfold_step. rewrite Hnext. simpl.
  destruct (pickAnswer env past _ _) as [pick|]; simpl; [|reflexivity].
  destruct (label pick); reflexivity.
Qed.

(** The run of [getScope] when the list of scopes is presented. *)
Lemma getScope_list_run (this : ConventionalCommitMessage) (past : list Entry)
  (czConfig' : CzConfig) (s : Value) (ss : list Value) :
  next this = true ->
  czConfig this = Some czConfig' ->
  scopes czConfig' = Some (s :: ss) ->
  allowCustomScopes czConfig' = false ->
  let picks := map (fun scope => {| label := scopeLabel scope; description := "" |})
                   (s :: ss) in
  let question := inputMessage this MCustomScope in
  let answer := pickAnswer env past picks question in
  let shown := QuickPickShown picks question answer in
  run env (getScope this) past =
    match answer with
    | None => (Normal (set_next false this), [shown])
    | Some pick =>
        if label_is (label pick) (Some (inputMessage this MCustomScopeEntry))
           && truthy question
        then
          let typed := inputAnswer env (past ++ [shown]) question None in
          (Normal match typed with
                  | Some input => set_next true (set_scope (or_undefined (VStr input)) this)
                  | None => set_next false this
                  end,
           [shown; InputBoxShown question None typed])
        else (Normal (set_next true (set_scope (or_undefined (label pick)) this)), [shown])
    end.
Proof.
  intros Hnext Hcfg Hscopes Hallow. unfold_step.
  unfold hasScopes, getScopePicks.
  rewrite Hnext, Hcfg. simpl. rewrite Hscopes, Hallow. simpl.
  destruct (pickAnswer env past _ _) as [pick|]; simpl; [|reflexivity].
  unfold given, or_empty. simpl.
  destruct (label_is (label pick) _); simpl; [|reflexivity].
  destruct (truthy (inputMessage this MCustomScope)) eqn:Hq; simpl; [|reflexivity].
  destruct (inputAnswer env _ _ _); reflexivity.
Qed.

(** A dismissed prompt ends the wizard: [next] is [false] afterwards. *)
Lemma step_cancelled (this : ConventionalCommitMessage) (past : list Entry)
  (step : ConventionalCommitMessage -> Prog ConventionalCommitMessage) :
  In step (steps host) -> next this = true ->
  Exists cancelled (calls env (step this) past) ->
  exists this', outcome env (step this) past = Normal this' /\ next this' = false.
Proof.
  intros Hstep Hnext. simpl in Hstep.
  destruct Hstep as [<-|[<-|[<-|[<-|[<-|[<-|[]]]]]]].
  - unfold outcome, calls. rewrite (getType_run this past Hnext). simpl.
    destruct (pickAnswer env past _ _); simpl; intros H; no_cancelled.
    eexists; split; reflexivity.
  - unfold_step. rewrite Hnext.
    destruct (hasScopes (czConfig this)).
    + destruct (czConfig this) as [c|]; simpl; [|intros H; no_cancelled].
      destruct (scopes c) as [[|s ss]|]; simpl; try solve [intros H; no_cancelled].
      unfold getScopePicks. destruct (allowCustomScopes c); simpl;
        [intros H; no_cancelled|].
      destruct (pickAnswer env past _ _) as [pick|]; simpl;
        [|intros _; eexists; split; reflexivity].
      destruct (label_is _ _ && given _); simpl; [|intros H; no_cancelled].
      destruct (inputAnswer env _ _ _); simpl; intros H; no_cancelled.
      eexists; split; reflexivity.
    + destruct (shouldSkip (czConfig this) MScope); simpl; [intros H; no_cancelled|].
      destruct (inputAnswer env _ _ _); simpl; intros H; no_cancelled.
      eexists; split; reflexivity.
  - unfold_step. rewrite Hnext. simpl.
    destruct (inputAnswer env _ _ _); simpl; intros H; no_cancelled.
    eexists; split; reflexivity.
  - unfold_step. rewrite Hnext.
    destruct (shouldSkip (czConfig this) MBody); simpl; [intros H; no_cancelled|].
    destruct (inputAnswer env _ _ _); simpl; intros H; no_cancelled.
    eexists; split; reflexivity.
  - unfold_step. rewrite Hnext.
    destruct (shouldSkip (czConfig this) MBreaking); simpl; [intros H; no_cancelled|].
    destruct (inputAnswer env _ _ _); simpl; intros H; no_cancelled.
    eexists; split; reflexivity.
  - unfold_step. rewrite Hnext.
    destruct (shouldSkip (czConfig this) MFooter); simpl; [intros H; no_cancelled|].
    destruct (inputAnswer env _ _ _); simpl; intros H; no_cancelled.
    eexists; split; reflexivity.
Qed.

End Steps.

(** C7. Once a prompt has been dismissed, [next] is [false]; and then every
    step called afterwards makes no call and returns the object as it is:
    the six answers and [next] are unchanged. *)
Theorem cancelled_wizard_stays_cancelled (host : Host) (env : Environment)
  (step : ConventionalCommitMessage -> Prog ConventionalCommitMessage)
  (this : ConventionalCommitMessage) (past : list Entry) :
  In step (steps host) ->
  (next this = true ->
   Exists cancelled (calls env (step this) past) ->
   exists this', outcome env (step this) past = Normal this' /\ next this' = false)
  /\ (next this = false ->
      forall later, In later (steps host) ->
        later this = Ret this
        /\ forall past', run env (later this) past' = (Normal this, [])).
Proof.
  intros Hstep. split.
  - intros Hnext. now apply step_cancelled with (host := host).
  - intros Hnext later Hlater.
    rewrite (step_after_cancel host this past later Hlater Hnext).
    split; reflexivity.
Qed.

Lemma cancelled_wizard_stays_cancelled_witness :
  (exists this',
     outcome (steady None None {| code := 0; stdout := "" |}) (getType (new None)) []
       = Normal this'
     /\ next this' = false)
  /\ (forall later,
        In later (steps (hostAt "/repo" false Off None)) ->
        later (set_next false (scenario None None))
          = Ret (set_next false (scenario None None))
        /\ forall past',
             run (steady (Some {| label := VStr "fix"; description := "" |})
                    (Some "typed") {| code := 0; stdout := "" |})
               (later (set_next false (scenario None None))) past'
             = (Normal (set_next false (scenario None None)), [])).
Proof.
  split.
  - apply (proj1 (cancelled_wizard_stays_cancelled
                    (hostAt "/repo" false Off None)
                    (steady None None {| code := 0; stdout := "" |})
                    getType (new None) [] (or_introl eq_refl))).
    + reflexivity.
    + apply Exists_cons_hd. exact I.
  - apply (proj2 (cancelled_wizard_stays_cancelled
                    (hostAt "/repo" false Off None)
                    (steady (Some {| label := VStr "fix"; description := "" |})
                       (Some "typed") {| code := 0; stdout := "" |})
                    getFooter (set_next false (scenario None None)) []
                    (or_intror (or_intror (or_intror (or_intror
                       (or_intror (or_introl eq_refl)))))))).
    reflexivity.
Defined.




(** C6, at the failing input: with scopes configured and
    [allowCustomScopes] set, the scope step throws before it presents
    anything, since [getScopePicks] calls [inputMessage] without its
    object. *)
Theorem getScope_custom_scopes_throws (env : Environment) (past : list Entry)
  (s : Value) (ss : list Value) (czTypes : option (list CommitType))
  (texts : option (gmap string string)) (breakingChanges : list string)
  (prefix : option string) (skip : option (list string)) :
  run env
    (getScope (new (Some {| types := czTypes; scopes := Some (s :: ss); messages := texts;
                            allowCustomScopes := true;
                            allowBreakingChanges := breakingChanges;
                            footerPrefix := prefix; skipQuestions := skip |}))) past
  = (Throws (TypeError "czConfig"), []).
Proof. reflexivity. Qed.

(** Without [allowCustomScopes] the scope step presents one option for
    each scope, labelled by its name. *)
Lemma getScope_options (env : Environment) (this : ConventionalCommitMessage)
  (past : list Entry) (czConfig' : CzConfig) (s : Value) (ss : list Value) :
  next this = true ->
  czConfig this = Some czConfig' ->
  scopes czConfig' = Some (s :: ss) ->
  allowCustomScopes czConfig' = false ->
  exists answer rest,
    calls env (getScope this) past
      = QuickPickShown (map (fun scope => {| label := scopeLabel scope; description := "" |})
                            (s :: ss))
          (inputMessage this MCustomScope) answer :: rest.
Proof.
  intros Hnext Hcfg Hscopes Hallow. unfold calls.
  rewrite (getScope_list_run env this past czConfig' s ss Hnext Hcfg Hscopes Hallow).
  cbv zeta.
  destruct (pickAnswer env past _ _) as [pick|]; [|eexists _, _; reflexivity].
  destruct (_ && _); eexists _, _; reflexivity.
Qed.

(** The header has no empty scope segment. *)
Lemma scopePart_not_empty_parentheses (this : ConventionalCommitMessage) :
  scopePart this <> "()".
Proof.
  unfold scopePart. destruct (scope this) as [[s|n]|]; try discriminate.
  destruct s as [|c s]; [discriminate|]. simpl.
  destruct s; discriminate.
Qed.

(** C10 (as amended). In the list branch of the scope step, choosing an
    option whose label is the empty string leaves the scope unset, unless
    the empty string is the [customScopeEntry] text and the [customScope]
    question is not empty: then the option opens the free-text prompt, and
    the text typed there becomes the scope when it is not empty. In both
    cases the scope is not stored as the empty string and the header has no
    "()" segment. *)
Theorem getScope_empty_label (env : Environment) (this : ConventionalCommitMessage)
  (past : list Entry) (czConfig' : CzConfig) (s : Value) (ss : list Value)
  (pick : QuickPickItem) :
  next this = true ->
  scope this = None ->
  czConfig this = Some czConfig' ->
  scopes czConfig' = Some (s :: ss) ->
  allowCustomScopes czConfig' = false ->
  let picks := map (fun scope => {| label := scopeLabel scope; description := "" |})
                   (s :: ss) in
  let question := inputMessage this MCustomScope in
  let custom := inputMessage this MCustomScopeEntry = "" /\ question <> "" in
  pickAnswer env past picks question = Some pick ->
  label pick = VStr "" ->
  exists this',
    outcome env (getScope this) past = Normal this'
    /\ scope this' <> Some (VStr "")
    /\ scopePart this' <> "()"
    /\ (~ custom -> scope this' = None /\ scopePart this' = "")
    /\ (custom ->
        forall typed,
          inputAnswer env (past ++ [QuickPickShown picks question (Some pick)])
            question None = Some typed ->
          scope this' = (if truthy typed then Some (VStr typed) else None)).
Proof.
  intros Hnext Hscope Hcfg Hscopes Hallow picks question custom Hanswer Hlabel.
  unfold outcome.
  rewrite (getScope_list_run env this past czConfig' s ss Hnext Hcfg Hscopes Hallow).
  cbv zeta. fold picks question. rewrite Hanswer, Hlabel. unfold label_is.
  destruct (String.eqb "" (inputMessage this MCustomScopeEntry)) eqn:Hentry;
    cbn [andb].
  - apply String.eqb_eq in Hentry.
    destruct (truthy question) eqn:Hquestion.
    + assert (Hcustom : custom).
      { split; [congruence | now apply truthy_spec]. }
      destruct (inputAnswer env _ _ _) as [input|].
      * eexists. split; [reflexivity|]. split; [|split; [|split]].
        -- cbn [scope set_next set_scope]. unfold or_undefined. cbn [value_truthy].
           destruct (truthy input) eqn:Hinput; [|discriminate].
           intros [= ->]. discriminate Hinput.
        -- apply scopePart_not_empty_parentheses.
        -- intros Hnot. now destruct Hnot.
        -- intros _ typed [= ->]. reflexivity.
      * eexists. split; [reflexivity|]. split; [|split; [|split]].
        -- cbn [scope set_next]. rewrite Hscope. discriminate.
        -- apply scopePart_not_empty_parentheses.
        -- intros Hnot. now destruct Hnot.
        -- intros _ typed Htyped. discriminate Htyped.
    + eexists. split; [reflexivity|]. repeat split; try discriminate.
      intros [_ Hq]. apply truthy_spec in Hq. congruence.
  - eexists. split; [reflexivity|]. repeat split; try discriminate.
    intros [He _]. apply String.eqb_neq in Hentry. congruence.
Qed.

Lemma getScope_empty_label_witness :
  exists this',
    outcome (steady (Some {| label := VStr ""; description := "" |}) None
               {| code := 0; stdout := "" |})
      (getScope (new (Some blankScope))) [] = Normal this'
    /\ scope this' = None
    /\ scopePart this' = "".
Proof.
  destruct (getScope_empty_label
              (steady (Some {| label := VStr ""; description := "" |}) None
                 {| code := 0; stdout := "" |})
              (new (Some blankScope)) [] blankScope (VStr "") [VStr "api"]
              {| label := VStr ""; description := "" |}
              eq_refl eq_refl eq_refl eq_refl eq_refl eq_refl eq_refl)
    as (this' & Hout & _ & _ & Hplain & _).
  exists this'. split; [exact Hout|].
  apply Hplain. intros [Hentry _]. discriminate Hentry.
Defined.

(** C10 as stated fails: when the [customScopeEntry] text is configured as
    the empty string, choosing the option with the empty label opens the
    free-text prompt, and the text typed there becomes the scope. *)
Lemma getScope_empty_label_counterexample :
  let czConfig :=
    {| types := Some DEFAULT_TYPES; scopes := Some [VStr ""; VStr "api"];
       messages := Some {[ "customScopeEntry" := "" ]};
       allowCustomScopes := false; allowBreakingChanges := [];
       footerPrefix := None; skipQuestions := None |} in
  let env := steady (Some {| label := VStr ""; description := "" |}) (Some "ui")
               {| code := 0; stdout := "" |} in
  calls env (getScope (new (Some czConfig))) []
    = [QuickPickShown [ {| label := VStr ""; description := "" |};
                        {| label := VStr "api"; description := "" |} ]
         "Denote the SCOPE of this change"
         (Some {| label := VStr ""; description := "" |});
       InputBoxShown "Denote the SCOPE of this change" None (Some "ui")]
  /\ exists this',
       outcome env (getScope (new (Some czConfig))) [] = Normal this'
       /\ scope this' = Some (VStr "ui").
Proof.
  split; [reflexivity|]. eexists. split; reflexivity.
Qed.

(** ** Runs of loops *)

Lemma run_forEach_appendLine {A : Type} (env : Environment) (lines : list string)
  (k : Prog A) (handler : Error.t -> Prog A) (past : list Entry) :
  run env (tryCatch (forEach lines (fun line => AppendLine line (Ret tt)) ;; k)
             handler) past
  = (fst (run env (tryCatch k handler) (past ++ map LineAppended lines)),
     map LineAppended lines
     ++ snd (run env (tryCatch k handler) (past ++ map LineAppended lines))).
Proof.
  revert past. induction lines as [|line lines IH]; intros past; simpl.
  - rewrite app_nil_r. now destruct (run env (tryCatch k handler) past).
  - unfold after. rewrite IH. simpl. now rewrite <- app_assoc.
Qed.

(** ** Runs of [commit] *)

Lemma truthy_false (s : string) : truthy s = false -> s = "".
Proof. unfold truthy. destruct (String.eqb_spec s ""); simpl; congruence. Qed.

(** Case analysis of a run of [commit], on what the host answers. *)
Ltac commit_cases H :=
  unfold calls, commit, conditionallyStageFiles, hasStagedFiles, hasOutput,
    shouldShowOutput, execa, executeCommand, appendLine, show, showErrorMessage in H;
  repeat (simpl in H;
    match type of H with
    | context [enableSmartCommit ?h] =>
        destruct (enableSmartCommit h) as [[|]|] eqn:?
    | context [execaOutcome ?e ?p ?f ?a ?c] =>
        destruct (execaOutcome e p f a c) as [?|?] eqn:?
    | context [commandOutcome ?e ?p ?c] =>
        destruct (commandOutcome e p c) as [?|] eqn:?
    | context [truthy (stdout ?r)] => destruct (truthy (stdout r)) eqn:?
    | context [autoSync ?c] => destruct (autoSync c) eqn:?
    | context [showOutputChannel ?c] => destruct (showOutputChannel c) eqn:?
    | context [N.ltb 0 (code ?r)] => destruct (N.ltb_spec 0 (code r)) as [?Hcode|?Hcode]
    | context [forEach _ _] => rewrite run_forEach_appendLine in H
    end);
  simpl in H.

(** Decompose a membership in a list of calls. *)
Ltac in_inv H :=
  repeat match type of H with
         | _ \/ _ => destruct H as [H|H]
         | False => destruct H
         | In _ [] => destruct H
         | In _ (_ :: _) => destruct H as [H|H]
         | In _ (_ ++ _) => apply in_app_or in H; destruct H as [H|H]
         | In _ (map LineAppended _) =>
             apply in_map_iff in H; destruct H as (? & H & _)
         end;
  try discriminate H.

Ltac in_list :=
  solve [repeat first [ left; reflexivity
                      | right
                      | apply in_or_app; right ]].

Ltac truthy_facts :=
  repeat match goal with
         | H : truthy _ = false |- _ => apply truthy_false in H
         | H : truthy _ = true |- _ => apply truthy_spec in H
         end.

Section Commit.

Local Arguments String.append : simpl never.

Variable env : Environment.
Variable host : Host.
Variables cwd message : string.

(** C9. In a run of [commit], the stage-all action is called iff smart
    commit is enabled and the query of the staged paths reported none;
    when it is called, it is called once, and before the commit command.
    With smart commit enabled and a staged path reported, or with smart
    commit disabled, it is not called. The query is what the host answers:
    with smart commit enabled the code asks the host for the staged
    paths, right after the announcement; when the host answers with no
    output, stage-all is called, and when it answers with output,
    stage-all is not called. *)
Theorem stageAll_policy (past : list Entry) :
  let cs := calls env (commit host cwd message) past in
  let diff := Executed "git" ["diff"; "--name-only"; "--cached"] cwd in
  let stageAll := CommandExecuted "git.stageAll" in
  let staged :=
    execaOutcome env (past ++ [LineAppended ("About to commit '" +:+ message +:+ "'")])
      "git" ["diff"; "--name-only"; "--cached"] cwd in
  ((exists o, In (stageAll o) cs)
   <-> enableSmartCommit host = Some true
       /\ exists r, In (diff (inr r)) cs /\ stdout r = "")
  /\ (forall o, In (stageAll o) cs ->
      exists before later,
        cs = before ++ stageAll o :: later
        /\ (forall o', ~ In (stageAll o') before)
        /\ (forall o', ~ In (stageAll o') later)
        /\ (forall o', ~ In (Executed "git" ["commit"; "-m"; message] cwd o') before))
  /\ (enableSmartCommit host <> Some true -> forall o, ~ In (stageAll o) cs)
  /\ (forall r, In (diff (inr r)) cs -> stdout r <> "" ->
      forall o, ~ In (stageAll o) cs)
  /\ (enableSmartCommit host = Some true ->
      exists later,
        cs = LineAppended ("About to commit '" +:+ message +:+ "'")
             :: diff staged :: later)
  /\ (enableSmartCommit host = Some true ->
      forall r, staged = inr r -> stdout r = "" ->
      exists o later,
        cs = LineAppended ("About to commit '" +:+ message +:+ "'")
             :: diff (inr r)
             :: LineAppended
                  "Staging all files (enableSmartCommit enabled with nothing staged)"
             :: stageAll o :: later
        /\ (o = None ->
            exists o' later',
              later = Executed "git" ["commit"; "-m"; message] cwd o' :: later'))
  /\ (enableSmartCommit host = Some true ->
      forall r, staged = inr r -> stdout r <> "" ->
      forall o, ~ In (stageAll o) cs).
Proof.
  intros cs diff stageAll staged.
  assert (Hcs : cs = calls env (commit host cwd message) past) by reflexivity.
  clearbody cs. subst diff stageAll staged.
  commit_cases Hcs; subst cs; truthy_facts.
  all: split; [split|split; [|split; [|split; [|split; [|split]]]]].
  (* stage-all was called: smart commit is on and nothing was staged *)
  all: try (intros [o H]; in_inv H;
            (split; [reflexivity | eexists; (split; [in_list | assumption])])).
  (* smart commit is on and nothing was staged: stage-all was called *)
  all: try (intros [Hsmart (r & Hin & Hr)]; try discriminate Hsmart; in_inv Hin;
            injection Hin as <-; first [congruence | eexists; in_list]).
  (* stage-all is called once, and before the commit *)
  all: try (intros o H; in_inv H; injection H as <-;
            match goal with
            | |- exists before later, ?a :: ?b :: ?c :: CommandExecuted _ _ :: ?rest = _ /\ _ =>
                exists [a; b; c], rest
            end;
            (split; [reflexivity|]);
            (split; [|split]); intros o' H'; in_inv H').
  (* smart commit is off *)
  all: try (intros Hne o H; in_inv H; congruence).
  (* something was staged *)
  all: try (intros r Hin Hne o H; in_inv H; in_inv Hin; injection Hin as <-; congruence).
  (* the host is asked *)
  all: try (intros Hsmart; try discriminate Hsmart; eexists; reflexivity).
  (* the host answers that nothing is staged *)
  all: try (intros Hsmart r Hstaged Hout; try discriminate Hsmart;
            try discriminate Hstaged; injection Hstaged as <-;
            first [ congruence
                  | do 2 eexists; (split; [reflexivity|]);
                    intros Ho; first [ discriminate Ho | do 2 eexists; reflexivity ] ]).
  (* the host answers that something is staged *)
  all: try (intros Hsmart r Hstaged Hout o H; try discriminate Hsmart;
            try discriminate Hstaged; injection Hstaged as <-;
            in_inv H; congruence).
Qed.

(** C5, where the code fails it. [execa] rejects for a process that exits
    with a status other than 0, so [commit] then goes to its handler and
    the test [result.code > 0] of [shouldShowOutput] never holds: in a
    run of [commit] the output channel is brought to the foreground iff
    [showOutputChannel] is "always" and the commit command resolved with
    output and the refresh (and, with [autoSync], the sync) succeeded.
    With "onError" it is never brought to the foreground, and it is not
    when the commit command failed, whatever the mode. *)
Theorem channel_not_shown_on_error (past : list Entry) :
  rejects_failed_processes env ->
  let cs := calls env (commit host cwd message) past in
  let committed := Executed "git" ["commit"; "-m"; message] cwd in
  (In ChannelShown cs <->
     showOutputChannel (configuration host) = Always
     /\ exists r, In (committed (inr r)) cs
          /\ In (CommandExecuted "git.refresh" None) cs
          /\ (autoSync (configuration host) = true ->
              In (CommandExecuted "git.sync" None) cs)
          /\ stdout r <> "")
  /\ (showOutputChannel (configuration host) = OnError -> ~ In ChannelShown cs)
  /\ (forall e, In (committed (inl e)) cs -> ~ In ChannelShown cs).
Proof.
  intros Hcontract cs committed.
  assert (Hcs : cs = calls env (commit host cwd message) past) by reflexivity.
  clearbody cs. subst committed.
  commit_cases Hcs; subst cs; truthy_facts.
  (* a resolved result with a status other than 0 is not an answer of execa *)
  all: try (exfalso;
            match goal with
            | Hanswer : execaOutcome _ _ _ _ _ = inr ?r, Hstatus : (0 < code ?r)%N |- _ =>
                pose proof (Hcontract _ _ _ _ _ Hanswer); lia
            end).
  all: split; [split|split].
  (* shown: the mode is "always" and the run reached the output *)
  all: try (intros Hshown; in_inv Hshown;
            (split; [reflexivity|]);
            eexists; (split; [in_list|]); (split; [in_list|]);
            (split; [intros Hsync; first [in_list | discriminate Hsync] | assumption])).
  (* the mode is "always" and the run reached the output: shown *)
  all: try (intros (Hmode & r & Hcommit & Hrefresh & Hsync & Hout);
            try discriminate Hmode;
            in_inv Hcommit; injection Hcommit as <-;
            first [ solve [in_list]
                  | solve [in_inv Hrefresh]
                  | solve [specialize (Hsync eq_refl); in_inv Hsync]
                  | congruence ]).
  (* "onError" *)
  all: try solve [intros Hmode Hshown; try discriminate Hmode; in_inv Hshown].
  (* the commit command failed *)
  all: intros e' Hfailed Hshown; in_inv Hshown; in_inv Hfailed.
Qed.

End Commit.

Lemma channel_not_shown_on_error_witness :
  calls (failing commitFailed)
    (commit (hostAt "/repo" false OnError None) "/repo" "fix: typo") []
  = [LineAppended "About to commit 'fix: typo'";
     Executed "git" ["commit"; "-m"; "fix: typo"] "/repo" (inl commitFailed);
     ErrorMessageShown (Error.message commitFailed);
     LineAppended (Error.message commitFailed);
     LineAppended (Error.stack commitFailed)]
  /\ ~ In ChannelShown
        (calls (failing commitFailed)
           (commit (hostAt "/repo" false OnError None) "/repo" "fix: typo") []).
Proof.
  split; [reflexivity|].
  assert (Hcontract : rejects_failed_processes (failing commitFailed)).
  { intros past file args cwd result Hanswer. discriminate Hanswer. }
  exact (proj1 (proj2 (channel_not_shown_on_error
                         (failing commitFailed) (hostAt "/repo" false OnError None)
                         "/repo" "fix: typo" [] Hcontract))
           eq_refl).
Defined.

(** * Further properties *)

(** ** Runs of composed programs *)

Lemma run_bind {A B : Type} (env : Environment) (p : Prog A) (f : A -> Prog B)
  (past : list Entry) :
  run env (bind p f) past =
    match run env p past with
    | (Normal a, cs) => after_all cs (run env (f a) (past ++ cs))
    | (Throws e, cs) => (Throws e, cs)
    end.
Proof.
  revert past.
  induction p as [a|e|picks q k IH|q v k IH|file args cwd k IH|c k IH|l k IH|k IH|t k IH];
    intros past; simpl.
  - rewrite app_nil_r. unfold after_all. simpl. now destruct (run env (f a) past).
  - reflexivity.
  - rewrite IH. destruct (run env (k _) _) as [[a|e] cs]; unfold after, after_all; simpl;
      [now rewrite <- app_assoc | reflexivity].
  - rewrite IH. destruct (run env (k _) _) as [[a|e] cs]; unfold after, after_all; simpl;
      [now rewrite <- app_assoc | reflexivity].
  - rewrite IH. destruct (run env (k _) _) as [[a|e] cs]; unfold after, after_all; simpl;
      [now rewrite <- app_assoc | reflexivity].
  - rewrite IH. destruct (run env (k _) _) as [[a|e] cs]; unfold after, after_all; simpl;
      [now rewrite <- app_assoc | reflexivity].
  - rewrite IH. destruct (run env k _) as [[a|e] cs]; unfold after, after_all; simpl;
      [now rewrite <- app_assoc | reflexivity].
  - rewrite IH. destruct (run env k _) as [[a|e] cs]; unfold after, after_all; simpl;
      [now rewrite <- app_assoc | reflexivity].
  - rewrite IH. destruct (run env k _) as [[a|e] cs]; unfold after, after_all; simpl;
      [now rewrite <- app_assoc | reflexivity].
Qed.

(** ** One step *)

Ltac step_kept_leaf :=
  split;
  [ repeat constructor
  | simpl; repeat (first [split | intro]); simpl in *;
    try congruence;
    try (match goal with H : _ /\ _ |- _ => destruct H; congruence end);
    try (match goal with
         | H : _ /\ ~ Exists cancelled _ |- _ =>
             destruct H as [_ H]; exfalso; apply H;
             solve [repeat first [apply Exists_cons_hd; exact I | apply Exists_cons_tl]]
         end);
    try (match goal with H : Exists cancelled _ |- _ => no_cancelled end) ].

Lemma step_keeps (host : Host) (env : Environment)
  (step : ConventionalCommitMessage -> Prog ConventionalCommitMessage)
  (this : ConventionalCommitMessage) (past : list Entry) :
  In step (steps host) -> step_kept this (run env (step this) past).
Proof.
  intros Hstep. simpl in Hstep. unfold step_kept.
  destruct Hstep as [<-|[<-|[<-|[<-|[<-|[<-|[]]]]]]].
  - unfold_step. destruct (next this) eqn:Hnext; [|step_kept_leaf].
    simpl. destruct (pickAnswer env past _ _) as [pick|]; simpl; [|step_kept_leaf].
    destruct (label pick); simpl; step_kept_leaf.
  - unfold_step. destruct (next this) eqn:Hnext; [|step_kept_leaf].
    destruct (hasScopes (czConfig this)).
    + destruct (czConfig this) as [c|] eqn:Hc; simpl; [|step_kept_leaf].
      destruct (scopes c) as [[|s ss]|]; simpl; try solve [step_kept_leaf].
      unfold getScopePicks. destruct (allowCustomScopes c); simpl; [step_kept_leaf|].
      destruct (pickAnswer env past _ _) as [pick|]; simpl; [|step_kept_leaf].
      destruct (label_is _ _ && given _); simpl; [|step_kept_leaf].
      destruct (inputAnswer env _ _ _); simpl; step_kept_leaf.
    + destruct (shouldSkip (czConfig this) MScope); simpl; [step_kept_leaf|].
      destruct (inputAnswer env _ _ _); simpl; step_kept_leaf.
  - unfold_step. destruct (next this) eqn:Hnext; [|step_kept_leaf].
    simpl. destruct (inputAnswer env _ _ _); simpl; step_kept_leaf.
  - unfold_step. destruct (next this) eqn:Hnext; [|step_kept_leaf].
    destruct (shouldSkip (czConfig this) MBody); simpl; [step_kept_leaf|].
    destruct (inputAnswer env _ _ _); simpl; step_kept_leaf.
  - unfold_step. destruct (next this) eqn:Hnext; [|step_kept_leaf].
    destruct (shouldSkip (czConfig this) MBreaking); simpl; [step_kept_leaf|].
    destruct (inputAnswer env _ _ _); simpl; step_kept_leaf.
  - unfold_step. destruct (next this) eqn:Hnext; [|step_kept_leaf].
    destruct (shouldSkip (czConfig this) MFooter); simpl; [step_kept_leaf|].
    destruct (inputAnswer env _ _ _); simpl; step_kept_leaf.
Qed.

Ltac frame_leaf :=
  intros [= <-]; unfold same_but; simpl; repeat split; intros; congruence.

(** X1. Each step writes only the answer it asks for, and [next]: whatever
    the user does, the configuration and the five other answers are the
    same after the step as before. *)
Theorem step_writes_its_own_answer (host : Host) (env : Environment)
  (step : ConventionalCommitMessage -> Prog ConventionalCommitMessage) (field : Field)
  (this this' : ConventionalCommitMessage) (past : list Entry) :
  In (step, field) (step_fields host) ->
  outcome env (step this) past = Normal this' ->
  same_but field this this'.
Proof.
  intros Hstep. simpl in Hstep.
  destruct Hstep as [[= <- <-]|[[= <- <-]|[[= <- <-]|[[= <- <-]|[[= <- <-]|[[= <- <-]|[]]]]]]].
  - unfold_step. destruct (next this); [|frame_leaf].
    simpl. destruct (pickAnswer env past _ _) as [pick|]; simpl; [|frame_leaf].
    destruct (label pick); simpl; frame_leaf.
  - unfold_step. destruct (next this); [|frame_leaf].
    destruct (hasScopes (czConfig this)).
    + destruct (czConfig this) as [c|] eqn:Hc; simpl; [|frame_leaf].
      destruct (scopes c) as [[|s ss]|]; simpl; try solve [frame_leaf].
      unfold getScopePicks. destruct (allowCustomScopes c); simpl; [discriminate|].
      destruct (pickAnswer env past _ _) as [pick|]; simpl; [|frame_leaf].
      destruct (label_is _ _ && given _); simpl; [|frame_leaf].
      destruct (inputAnswer env _ _ _); simpl; frame_leaf.
    + destruct (shouldSkip (czConfig this) MScope); simpl; [frame_leaf|].
      destruct (inputAnswer env _ _ _); simpl; frame_leaf.
  - unfold_step. destruct (next this); [|frame_leaf].
    simpl. destruct (inputAnswer env _ _ _); simpl; frame_leaf.
  - unfold_step. destruct (next this); [|frame_leaf].
    destruct (shouldSkip (czConfig this) MBody); simpl; [frame_leaf|].
    destruct (inputAnswer env _ _ _); simpl; frame_leaf.
  - unfold_step. destruct (next this); [|frame_leaf].
    destruct (shouldSkip (czConfig this) MBreaking); simpl; [frame_leaf|].
    destruct (inputAnswer env _ _ _); simpl; frame_leaf.
  - unfold_step. destruct (next this); [|frame_leaf].
    destruct (shouldSkip (czConfig this) MFooter); simpl; [frame_leaf|].
    destruct (inputAnswer env _ _ _); simpl; frame_leaf.
Qed.

Lemma step_writes_its_own_answer_witness :
  same_but FBody (scenario None None)
    (set_next true (set_body (Some "fix it") (scenario None None))).
Proof.
  apply (step_writes_its_own_answer
           (hostAt "/repo" false Off None)
           (steady None (Some "fix it") {| code := 0; stdout := "" |})
           getBody FBody (scenario None None) _ []).
  - simpl. do 3 right. left. reflexivity.
  - reflexivity.
Defined.

Lemma cancelled_dec (entry : Entry) : {cancelled entry} + {~ cancelled entry}.
Proof.
  destruct entry as [? ? [?|]|? ? [?|]| | | | |]; simpl; auto.
Defined.

(** X2. A wizard that is not cancelled is cancelled by a step only through
    a dismissed prompt: after a step that returns, [next] is [false] iff
    one of the prompts of the step was dismissed. Skipped steps and
    answered prompts, also with an empty answer, keep the wizard going. *)
Theorem step_cancels_iff_dismissed (host : Host) (env : Environment)
  (step : ConventionalCommitMessage -> Prog ConventionalCommitMessage)
  (this this' : ConventionalCommitMessage) (past : list Entry) :
  In step (steps host) ->
  next this = true ->
  outcome env (step this) past = Normal this' ->
  (next this' = false <-> Exists cancelled (calls env (step this) past)).
Proof.
  intros Hstep Hnext Hout.
  pose proof (step_keeps host env step this past Hstep) as [_ Hkept].
  unfold outcome in Hout. unfold calls. rewrite Hout in Hkept.
  destruct Hkept as (_ & _ & Hiff).
  destruct (List.Exists_dec cancelled (snd (run env (step this) past)) cancelled_dec)
    as [Hyes|Hno].
  - split; [intros _; exact Hyes|]. intros _.
    destruct (next this'); [|reflexivity].
    destruct (proj1 Hiff eq_refl) as [_ Hno]. contradiction.
  - split; [|intros Hyes; contradiction].
    intros Hfalse. assert (Htrue : next this' = true) by (apply Hiff; auto).
    congruence.
Qed.

Lemma step_cancels_iff_dismissed_witness :
  next (set_next true (set_footer (Some "") (new None))) = false <->
  Exists cancelled
    (calls (steady None (Some "") {| code := 0; stdout := "" |})
       (getFooter (new None)) []).
Proof.
  apply (step_cancels_iff_dismissed
           (hostAt "/repo" false Off None)
           (steady None (Some "") {| code := 0; stdout := "" |})
           getFooter (new None) _ []).
  - simpl. do 5 right. left. reflexivity.
  - reflexivity.
  - reflexivity.
Defined.

(** X3. What the skip list does in a wizard that is not cancelled: the
    body, breaking and footer steps make no call iff they are listed; the
    scope step, when no scopes are configured, makes no call iff it is
    listed. The type and subject steps always prompt, whatever is listed,
    and so does the scope step when scopes are configured (without
    [allowCustomScopes]). *)
Theorem skip_list_effect (host : Host) (env : Environment)
  (this : ConventionalCommitMessage) (past : list Entry) :
  next this = true ->
  (calls env (getBody this) past = [] <-> shouldSkip (czConfig this) MBody = true)
  /\ (calls env (getBreaking this) past = []
      <-> shouldSkip (czConfig this) MBreaking = true)
  /\ (calls env (getFooter this) past = [] <-> shouldSkip (czConfig this) MFooter = true)
  /\ (hasScopes (czConfig this) = false ->
      (calls env (getScope this) past = [] <-> shouldSkip (czConfig this) MScope = true))
  /\ calls env (getType this) past <> []
  /\ calls env (getSubject host this) past <> []
  /\ (forall c s ss,
        czConfig this = Some c -> scopes c = Some (s :: ss) ->
        allowCustomScopes c = false ->
        calls env (getScope this) past <> []).
Proof.
  intros Hnext. repeat split.
  - unfold_step. rewrite Hnext.
    destruct (shouldSkip (czConfig this) MBody); simpl; [reflexivity|].
    destruct (inputAnswer env _ _ _); discriminate.
  - unfold_step. rewrite Hnext.
    destruct (shouldSkip (czConfig this) MBody); simpl; [reflexivity|discriminate].
  - unfold_step. rewrite Hnext.
    destruct (shouldSkip (czConfig this) MBreaking); simpl; [reflexivity|].
    destruct (inputAnswer env _ _ _); discriminate.
  - unfold_step. rewrite Hnext.
    destruct (shouldSkip (czConfig this) MBreaking); simpl; [reflexivity|discriminate].
  - unfold_step. rewrite Hnext.
    destruct (shouldSkip (czConfig this) MFooter); simpl; [reflexivity|].
    destruct (inputAnswer env _ _ _); discriminate.
  - unfold_step. rewrite Hnext.
    destruct (shouldSkip (czConfig this) MFooter); simpl; [reflexivity|discriminate].
  - unfold_step. rewrite Hnext, H.
    destruct (shouldSkip (czConfig this) MScope); simpl; [reflexivity|].
    destruct (inputAnswer env _ _ _); discriminate.
  - unfold_step. rewrite Hnext, H.
    destruct (shouldSkip (czConfig this) MScope); simpl; [reflexivity|discriminate].
  - unfold calls. rewrite (getType_run env this past Hnext). discriminate.
  - unfold_step. rewrite Hnext. simpl.
    destruct (inputAnswer env _ _ _); discriminate.
  - intros c s ss Hc Hscopes Hallow.
    destruct (getScope_options env this past c s ss Hnext Hc Hscopes Hallow)
      as (answer & rest & ->).
    discriminate.
Qed.

Lemma skip_list_effect_witness :
  calls (steady None (Some "x") {| code := 0; stdout := "" |})
    (getBody (new (Some {| types := None; scopes := None; messages := None;
                           allowCustomScopes := false; allowBreakingChanges := [];
                           footerPrefix := None;
                           skipQuestions := Some ["body"; "subject"] |}))) [] = []
  /\ calls (steady None (Some "x") {| code := 0; stdout := "" |})
       (getSubject (hostAt "/repo" false Off None)
          (new (Some {| types := None; scopes := None; messages := None;
                        allowCustomScopes := false; allowBreakingChanges := [];
                        footerPrefix := None;
                        skipQuestions := Some ["body"; "subject"] |}))) [] <> [].
Proof.
  destruct (skip_list_effect
              (hostAt "/repo" false Off None)
              (steady None (Some "x") {| code := 0; stdout := "" |})
              (new (Some {| types := None; scopes := None; messages := None;
                            allowCustomScopes := false; allowBreakingChanges := [];
                            footerPrefix := None;
                            skipQuestions := Some ["body"; "subject"] |})) []
              eq_refl)
    as (Hbody & _ & _ & _ & _ & Hsubject & _).
  split; [apply Hbody; reflexivity | exact Hsubject].
Defined.

(** ** The command *)

Lemma run_bind_assoc {A B C : Type} (env : Environment) (p : Prog A)
  (f : A -> Prog B) (g : B -> Prog C) (past : list Entry) :
  run env (bind (bind p f) g) past = run env (bind p (fun a => bind (f a) g)) past.
Proof.
  revert past.
  induction p as [a|e|picks q k IH|q v k IH|file args cwd k IH|c k IH|l k IH|k IH|t k IH];
    intros past; simpl; try reflexivity; now rewrite IH.
Qed.

Lemma run_bind_ext {A B : Type} (env : Environment) (p : Prog A)
  (f g : A -> Prog B) (past : list Entry) :
  (forall a past', run env (f a) past' = run env (g a) past') ->
  run env (bind p f) past = run env (bind p g) past.
Proof.
  intros Hfg. rewrite !run_bind.
  destruct (run env p past) as [[a|e] cs]; [now rewrite Hfg | reflexivity].
Qed.

(** The command is the six steps followed by [commitWhenComplete]. *)
Lemma commitCommand_run (env : Environment) (host : Host) (czConfig : option CzConfig)
  (past : list Entry) :
  run env (commitCommand host czConfig) past
  = run env (bind (runSteps (steps host) (new czConfig)) (commitWhenComplete host)) past.
Proof.
  unfold commitCommand, steps, runSteps.
  repeat (rewrite run_bind_assoc; apply run_bind_ext; intros ? ?).
  reflexivity.
Qed.

Lemma runSteps_keeps (host : Host) (env : Environment)
  (ss : list (ConventionalCommitMessage -> Prog ConventionalCommitMessage)) :
  (forall step, In step ss -> In step (steps host)) ->
  forall this past, steps_kept this (run env (runSteps ss this) past).
Proof.
  induction ss as [|step rest IH]; intros Hss this past.
  - simpl. split; [constructor|]. simpl. split; [reflexivity|].
    split; [intros H; split; [exact H | intros Hex; inversion Hex] | now intros [H _]].
  - simpl. rewrite run_bind.
    pose proof (step_keeps host env step this past (Hss step (or_introl eq_refl)))
      as [Hprompts Hkept].
    destruct (run env (step this) past) as [[this1|e] cs1]; simpl in *.
    + destruct Hkept as (Hcfg & _ & Hnext).
      specialize (IH (fun s Hs => Hss s (or_intror Hs)) this1 (past ++ cs1)).
      destruct IH as [Hprompts2 Hkept2].
      destruct (run env (runSteps rest this1) (past ++ cs1)) as [[this2|e] cs2];
        unfold after_all; simpl in *.
      * split; [now apply Forall_app|].
        destruct Hkept2 as (Hcfg2 & Hnext2). split; [congruence|].
        cbn [snd]. rewrite Hnext2, Hnext, Exists_app. tauto.
      * split; [now apply Forall_app|].
        destruct Hkept2 as (Hnext2 & Hno). apply Hnext in Hnext2.
        cbn [snd]. split; [tauto|].
        intros Hex. apply Exists_app in Hex. tauto.
    + destruct Hkept as (-> & Hnext). split; [constructor|].
      split; [exact Hnext | intros Hex; inversion Hex].
Qed.

(** The wizard of the command: its calls are prompts, it keeps the
    configuration, and it ends with [next] iff no prompt was dismissed. *)
Lemma wizard_keeps (host : Host) (env : Environment) (czConfig' : option CzConfig)
  (past : list Entry) :
  steps_kept (new czConfig') (run env (runSteps (steps host) (new czConfig')) past).
Proof. apply runSteps_keeps with (host := host). auto. Qed.

Section CommitCalls.

Local Arguments String.append : simpl never.

Variable env : Environment.
Variable host : Host.
Variables cwd message : string.

(** [commit] makes no prompt. *)
Lemma commit_makes_no_prompt (past : list Entry) (entry : Entry) :
  In entry (calls env (commit host cwd message) past) -> ~ is_prompt entry.
Proof.
  intros Hin.
  remember (calls env (commit host cwd message) past) as cs eqn:Hcs.
  commit_cases Hcs; subst cs; in_inv Hin; subst entry; simpl; auto.
Qed.


End CommitCalls.

Lemma commitCommand_shape (env : Environment) (host : Host) (czConfig' : option CzConfig)
  (past : list Entry) :
  run env (commitCommand host czConfig') past =
    match run env (runSteps (steps host) (new czConfig')) past with
    | (Normal ccm, cs) => after_all cs (run env (commitWhenComplete host ccm) (past ++ cs))
    | (Throws e, cs) => (Throws e, cs)
    end.
Proof. rewrite commitCommand_run. apply run_bind. Qed.

Lemma cancelled_is_prompt (entry : Entry) : cancelled entry -> is_prompt entry.
Proof. destruct entry as [? ? [?|]|? ? [?|]| | | | |]; simpl; auto. Qed.

Lemma commitWhenComplete_makes_no_prompt (env : Environment) (host : Host)
  (ccm : ConventionalCommitMessage) (past : list Entry) (entry : Entry) :
  In entry (snd (run env (commitWhenComplete host ccm) past)) -> ~ is_prompt entry.
Proof.
  unfold commitWhenComplete.
  destruct (complete ccm); [|intros []].
  destruct (workspaceFolders host) as [[|folder rest]|]; try (intros []).
  destruct (message ccm) as [text|e]; simpl; [|intros []].
  apply commit_makes_no_prompt.
Qed.

Lemma incomplete_when_cancelled (ccm : ConventionalCommitMessage) :
  next ccm <> true -> complete ccm = false.
Proof. unfold complete. destruct (next ccm); [congruence | reflexivity]. Qed.

(** After a dismissed prompt a step makes no call. *)
Lemma step_cancelled_last (host : Host) (env : Environment)
  (step : ConventionalCommitMessage -> Prog ConventionalCommitMessage)
  (this : ConventionalCommitMessage) (past : list Entry) :
  In step (steps host) -> cancelled_only_last (snd (run env (step this) past)).
Proof.
  intros Hstep. simpl in Hstep.
  destruct Hstep as [<-|[<-|[<-|[<-|[<-|[<-|[]]]]]]];
    unfold_step; destruct (next this); simpl; auto.
  - destruct (pickAnswer env past _ _) as [pick|]; simpl; auto.
    destruct (label pick); simpl; auto.
  - destruct (hasScopes (czConfig this)).
    + destruct (czConfig this) as [c|]; simpl; auto.
      destruct (scopes c) as [[|s ss]|]; simpl; auto.
      unfold getScopePicks. destruct (allowCustomScopes c); simpl; auto.
      destruct (pickAnswer env past _ _) as [pick|]; simpl; auto.
      destruct (label_is _ _ && given _); simpl; auto.
      destruct (inputAnswer env _ _ _); simpl; auto.
    + destruct (shouldSkip (czConfig this) MScope); simpl; auto.
      destruct (inputAnswer env _ _ _); simpl; auto.
  - destruct (inputAnswer env _ _ _); simpl; auto.
  - destruct (shouldSkip (czConfig this) MBody); simpl; auto.
    destruct (inputAnswer env _ _ _); simpl; auto.
  - destruct (shouldSkip (czConfig this) MBreaking); simpl; auto.
    destruct (inputAnswer env _ _ _); simpl; auto.
  - destruct (shouldSkip (czConfig this) MFooter); simpl; auto.
    destruct (inputAnswer env _ _ _); simpl; auto.
Qed.

Lemma cancelled_only_last_app (cs1 cs2 : list Entry) :
  cancelled_only_last cs1 -> cancelled_only_last cs2 ->
  (Exists cancelled cs1 -> cs2 = []) ->
  cancelled_only_last (cs1 ++ cs2).
Proof.
  induction cs1 as [|entry rest IH]; intros H1 H2 Hlast; [exact H2|].
  destruct rest as [|entry' rest'].
  - simpl. destruct cs2 as [|entry2 rest2]; [exact I|].
    split; [|exact H2]. intros Hcancelled.
    discriminate (Hlast (Exists_cons_hd _ _ _ Hcancelled)).
  - destruct H1 as [Hentry Hrest].
    change (~ cancelled entry /\ cancelled_only_last ((entry' :: rest') ++ cs2)).
    split; [exact Hentry|].
    apply IH; [exact Hrest | exact H2 |].
    intros Hex. apply Hlast. now apply Exists_cons_tl.
Qed.

Lemma cancelled_only_last_split (cs : list Entry) :
  cancelled_only_last cs -> Exists cancelled cs ->
  exists before entry,
    cs = before ++ [entry] /\ cancelled entry /\ ~ Exists cancelled before.
Proof.
  induction cs as [|entry rest IH]; intros Hlast Hex; [inversion Hex|].
  destruct rest as [|entry' rest'].
  - exists [], entry. split; [reflexivity|]. split.
    + apply Exists_cons in Hex. destruct Hex as [Hex|Hex]; [exact Hex | inversion Hex].
    + intros H. inversion H.
  - destruct Hlast as [Hentry Hrest].
    apply Exists_cons in Hex. destruct Hex as [Hex|Hex]; [contradiction|].
    destruct (IH Hrest Hex) as (before & last & Heq & Hcancelled & Hno).
    exists (entry :: before), last. split; [simpl; now rewrite Heq|].
    split; [exact Hcancelled|].
    intros H. apply Exists_cons in H. tauto.
Qed.

(** A cancelled wizard goes through the remaining steps without a call. *)
Lemma runSteps_cancelled (host : Host) (env : Environment)
  (ss : list (ConventionalCommitMessage -> Prog ConventionalCommitMessage)) :
  (forall step, In step ss -> In step (steps host)) ->
  forall this past, next this = false ->
  run env (runSteps ss this) past = (Normal this, []).
Proof.
  induction ss as [|step rest IH]; intros Hss this past Hnext; [reflexivity|].
  simpl. rewrite run_bind.
  pose proof (step_keeps host env step this past (Hss step (or_introl eq_refl)))
    as [_ Hkept].
  destruct (run env (step this) past) as [[this1|e] cs1]; simpl in *.
  - destruct Hkept as (_ & Hsame & _). destruct (Hsame Hnext) as [-> ->].
    now rewrite (IH (fun s Hs => Hss s (or_intror Hs)) this (past ++ []) Hnext).
  - destruct Hkept as [_ Htrue]. congruence.
Qed.

Lemma runSteps_cancelled_last (host : Host) (env : Environment)
  (ss : list (ConventionalCommitMessage -> Prog ConventionalCommitMessage)) :
  (forall step, In step ss -> In step (steps host)) ->
  forall this past, cancelled_only_last (snd (run env (runSteps ss this) past)).
Proof.
  induction ss as [|step rest IH]; intros Hss this past; [exact I|].
  simpl. rewrite run_bind.
  pose proof (step_keeps host env step this past (Hss step (or_introl eq_refl)))
    as [_ Hkept].
  pose proof (step_cancelled_last host env step this past (Hss step (or_introl eq_refl)))
    as Hlast.
  destruct (run env (step this) past) as [[this1|e] cs1]; simpl in *; [|exact Hlast].
  destruct Hkept as (_ & _ & Hnext).
  specialize (IH (fun s Hs => Hss s (or_intror Hs)) this1 (past ++ cs1)).
  assert (Hrest : Exists cancelled cs1 ->
                  snd (run env (runSteps rest this1) (past ++ cs1)) = []).
  { intros Hex.
    rewrite (runSteps_cancelled host env rest (fun s Hs => Hss s (or_intror Hs)));
      [reflexivity|].
    destruct (next this1); [|reflexivity].
    destruct (proj1 Hnext eq_refl) as [_ Hno]. contradiction. }
  destruct (run env (runSteps rest this1) (past ++ cs1)) as [[this2|e] cs2];
    unfold after_all; simpl in *; now apply cancelled_only_last_app.
Qed.

(** X4. A dismissed prompt ends the command: when one of the prompts of
    the command was dismissed, that prompt is the last call of the
    command, the calls before it are prompts that were answered, so no
    process was run and nothing was logged or shown, and the command
    returned normally. *)
Theorem dismissed_prompt_means_no_commit (env : Environment) (host : Host)
  (czConfig' : option CzConfig) (past : list Entry) :
  Exists cancelled (calls env (commitCommand host czConfig') past) ->
  outcome env (commitCommand host czConfig') past = Normal tt
  /\ exists before entry,
       calls env (commitCommand host czConfig') past = before ++ [entry]
       /\ cancelled entry
       /\ Forall is_prompt before
       /\ ~ Exists cancelled before.
Proof.
  unfold calls, outcome. rewrite commitCommand_shape.
  pose proof (wizard_keeps host env czConfig' past) as [Hprompts Hkept].
  pose proof (runSteps_cancelled_last host env (steps host) (fun _ H => H)
                (new czConfig') past) as Hlast.
  destruct (run env (runSteps (steps host) (new czConfig')) past) as [[ccm|e] cs];
    simpl in *.
  - destruct Hkept as (_ & Hnext). intros Hex. apply Exists_app in Hex.
    assert (Hcs : Exists cancelled cs).
    { destruct Hex as [Hex|Hex]; [exact Hex|]. exfalso.
      apply List.Exists_exists in Hex. destruct Hex as (entry & Hin & Hcancelled).
      apply (commitWhenComplete_makes_no_prompt env host ccm (past ++ cs) entry Hin).
      now apply cancelled_is_prompt. }
    assert (Hincomplete : complete ccm = false).
    { apply incomplete_when_cancelled. intros Htrue. apply Hnext in Htrue. tauto. }
    unfold commitWhenComplete. rewrite Hincomplete. simpl.
    rewrite app_nil_r. split; [reflexivity|].
    destruct (cancelled_only_last_split cs Hlast Hcs)
      as (before & entry & -> & Hcancelled & Hno).
    exists before, entry. repeat split; auto.
    apply Forall_app in Hprompts. tauto.
  - intros Hex. destruct Hkept as (_ & Hno). contradiction.
Qed.

Lemma dismissed_prompt_means_no_commit_witness :
  outcome (steady (Some {| label := VStr "feat"; description := "" |}) None
             {| code := 0; stdout := "" |})
    (commitCommand (hostAt "/repo" false Off None) (Some defaultTable)) []
  = Normal tt
  /\ exists before entry,
       calls (steady (Some {| label := VStr "feat"; description := "" |}) None
                {| code := 0; stdout := "" |})
         (commitCommand (hostAt "/repo" false Off None) (Some defaultTable)) []
       = before ++ [entry]
       /\ cancelled entry
       /\ Forall is_prompt before
       /\ ~ Exists cancelled before.
Proof.
  apply (dismissed_prompt_means_no_commit
           (steady (Some {| label := VStr "feat"; description := "" |}) None
              {| code := 0; stdout := "" |})
           (hostAt "/repo" false Off None) (Some defaultTable) []).
  apply Exists_cons_tl, Exists_cons_hd. exact I.
Defined.

(** Without a configuration no step throws: the only error of a step is
    that of [getScopePicks], which needs the scopes of a configuration. *)
Lemma step_returns_without_configuration (host : Host) (env : Environment)
  (step : ConventionalCommitMessage -> Prog ConventionalCommitMessage)
  (this : ConventionalCommitMessage) (past : list Entry) :
  In step (steps host) -> czConfig this = None ->
  forall e, fst (run env (step this) past) <> Throws e.
Proof.
  intros Hstep Hcfg e. simpl in Hstep.
  destruct Hstep as [<-|[<-|[<-|[<-|[<-|[<-|[]]]]]]];
    unfold_step; rewrite ?Hcfg; simpl;
    destruct (next this); simpl; try discriminate;
    repeat (match goal with
            | |- context [pickAnswer ?e ?p ?l ?q] => destruct (pickAnswer e p l q)
            | |- context [inputAnswer ?e ?p ?q ?v] => destruct (inputAnswer e p q v)
            | |- context [label ?p] => destruct (label p)
            end; simpl);
    discriminate.
Qed.

Lemma runSteps_returns_without_configuration (host : Host) (env : Environment)
  (ss : list (ConventionalCommitMessage -> Prog ConventionalCommitMessage)) :
  (forall step, In step ss -> In step (steps host)) ->
  forall this past, czConfig this = None ->
  forall e, fst (run env (runSteps ss this) past) <> Throws e.
Proof.
  induction ss as [|step rest IH]; intros Hss this past Hcfg e.
  - simpl. discriminate.
  - simpl. rewrite run_bind.
    pose proof (step_keeps host env step this past (Hss step (or_introl eq_refl)))
      as [_ Hkept].
    pose proof (step_returns_without_configuration host env step this past
                  (Hss step (or_introl eq_refl)) Hcfg) as Hreturns.
    destruct (run env (step this) past) as [[this1|e1] cs1]; simpl in *.
    + destruct Hkept as (Hcfg1 & _).
      specialize (IH (fun s Hs => Hss s (or_intror Hs)) this1 (past ++ cs1)
                    (eq_trans Hcfg1 Hcfg) e).
      destruct (run env (runSteps rest this1) (past ++ cs1)) as [[this2|e2] cs2];
        unfold after_all; simpl in *; [discriminate | exact IH].
    + now destruct (Hreturns e1).
Qed.

(** X5. Without a configuration the command never commits: whatever the
    user answers and whatever the host does, the command makes no other
    call than prompts, and it ends normally or with the [TypeError] of
    the rendering or of the missing folder. *)
Theorem no_configuration_never_commits (env : Environment) (host : Host)
  (past : list Entry) :
  Forall is_prompt (calls env (commitCommand host None) past)
  /\ (outcome env (commitCommand host None) past = Normal tt
      \/ outcome env (commitCommand host None) past = Throws (TypeError "filter")
      \/ outcome env (commitCommand host None) past = Throws (TypeError "uri")).
Proof.
  unfold calls, outcome. rewrite commitCommand_shape.
  pose proof (wizard_keeps host env None past) as [Hprompts Hkept].
  pose proof (runSteps_returns_without_configuration host env (steps host)
                (fun _ H => H) (new None) past eq_refl) as Hreturns.
  destruct (run env (runSteps (steps host) (new None)) past) as [[ccm|e] cs];
    simpl in *.
  - destruct Hkept as (Hcfg & _).
    unfold commitWhenComplete.
    destruct (complete ccm); simpl; [|rewrite app_nil_r; auto].
    destruct (workspaceFolders host) as [[|folder rest]|]; simpl;
      try (rewrite app_nil_r; auto).
    unfold message. rewrite Hcfg. simpl. rewrite app_nil_r. auto.
  - now destruct (Hreturns e).
Qed.



Section CommitFailures.

Local Arguments String.append : simpl never.

Variable env : Environment.
Variable host : Host.
Variables cwd message : string.

Ltac prefix_of l x :=
  lazymatch l with
  | x :: _ => constr:(@nil Entry)
  | ?y :: ?l' => let p := prefix_of l' x in constr:(y :: p)
  end.

Ltac prefix_to_lines l :=
  lazymatch l with
  | map LineAppended _ ++ _ => constr:(@nil Entry)
  | map LineAppended _ => constr:(@nil Entry)
  | ?y :: ?l' => let p := prefix_to_lines l' in constr:(y :: p)
  end.

Ltac later_of l :=
  lazymatch l with
  | map LineAppended _ ++ ?later => later
  | map LineAppended _ => constr:(@nil Entry)
  | _ :: ?l' => later_of l'
  end.

(** X7. [commit] never throws, and it reports the failure of a call: a
    failed call (a [git] process or an editor command that rejected) is
    the first failure of the run and the last call before the report,
    which shows the message of the error and appends the message and the
    stack to the channel; and an error message is shown only for a
    failed call. *)
Theorem commit_reports_failure (past : list Entry) :
  let cs := calls env (commit host cwd message) past in
  outcome env (commit host cwd message) past = Normal tt
  /\ (forall entry e, In entry cs -> failed_with e entry ->
        exists before, cs = before ++ entry :: report e
          /\ Forall (fun c => ~ failed c) before)
  /\ (forall text, In (ErrorMessageShown text) cs ->
        exists entry e, In entry cs /\ failed_with e entry /\ text = Error.message e).
Proof.
  intros cs. subst cs. unfold outcome, calls.
  remember (run env (commit host cwd message) past) as r eqn:Hr.
  commit_cases Hr; subst r; cbn [after fst snd].
  all: split; [reflexivity|split].
  all: try (intros entry err Hin Hfailed; in_inv Hin; subst entry; simpl in Hfailed;
            try contradiction; subst;
            match goal with
            | |- exists before, ?l = before ++ ?x :: _ /\ _ =>
                let p := prefix_of l x in exists p
            end;
            (split; [reflexivity | repeat constructor; simpl; auto])).
  all: try (intros text Hin; in_inv Hin; injection Hin as <-;
            match goal with
            | |- context [Executed ?f ?a ?c (inl ?t)] => exists (Executed f a c (inl t)), t
            | |- context [CommandExecuted ?c (Some ?t)] =>
                exists (CommandExecuted c (Some t)), t
            end;
            (split; [in_list | split; reflexivity])).
Qed.

(** X8. In a run of [commit], the sync command is called iff [autoSync]
    is set, the commit command resolved and the refresh succeeded: a
    failed staging, commit or refresh never leads to a sync. *)
Theorem sync_only_after_commit_and_refresh (past : list Entry) :
  let cs := calls env (commit host cwd message) past in
  (exists o, In (CommandExecuted "git.sync" o) cs)
  <-> autoSync (configuration host) = true
      /\ (exists r, In (Executed "git" ["commit"; "-m"; message] cwd (inr r)) cs)
      /\ In (CommandExecuted "git.refresh" None) cs.
Proof.
  intros cs.
  assert (Hcs : cs = calls env (commit host cwd message) past) by reflexivity.
  clearbody cs.
  commit_cases Hcs; subst cs.
  all: split.
  all: try (intros [o Hin]; in_inv Hin;
            (split; [reflexivity | split; [eexists; in_list | in_list]])).
  all: try (intros (Hsync & [r Hcommit] & Hrefresh); try congruence;
            in_inv Hcommit; in_inv Hrefresh; eexists; in_list).
Qed.

(** X9. In a run of [commit], the commit command is run unless the
    staging failed: [git commit] is executed iff neither the query of the
    staged paths nor the stage-all action rejected. *)
Theorem commit_attempted_unless_staging_failed (past : list Entry) :
  let cs := calls env (commit host cwd message) past in
  (exists o, In (Executed "git" ["commit"; "-m"; message] cwd o) cs)
  <-> ~ (exists e, In (Executed "git" ["diff"; "--name-only"; "--cached"] cwd (inl e)) cs
                   \/ In (CommandExecuted "git.stageAll" (Some e)) cs).
Proof.
  intros cs.
  assert (Hcs : cs = calls env (commit host cwd message) past) by reflexivity.
  clearbody cs.
  commit_cases Hcs; subst cs.
  all: split.
  all: try (intros [o Hin] [err [Hfailed|Hfailed]]; in_inv Hfailed; in_inv Hin).
  all: try (intros _; eexists; in_list).
  all: try (intros Hno; exfalso; apply Hno; eexists; first [left; in_list | right; in_list]).
Qed.

(** X10. The output of the commit is written to the channel line by line:
    when the commit command resolved with output and no call of the run
    failed, the lines of its output are appended in their order, and
    nothing follows them but the channel being brought to the foreground. *)
Theorem output_logged_line_by_line (past : list Entry) (r : ExecaResult) :
  let cs := calls env (commit host cwd message) past in
  In (Executed "git" ["commit"; "-m"; message] cwd (inr r)) cs ->
  Forall (fun c => ~ failed c) cs ->
  stdout r <> "" ->
  exists before later,
    cs = before ++ map LineAppended (split LF (stdout r)) ++ later
    /\ Forall (fun c => forall line, c <> LineAppended line) later.
Proof.
  intros cs.
  assert (Hcs : cs = calls env (commit host cwd message) past) by reflexivity.
  clearbody cs.
  commit_cases Hcs; subst cs; truthy_facts.
  all: intros Hin Hok Hout.
  (* a call failed *)
  all: try (exfalso; rewrite List.Forall_forall in Hok;
            match type of Hok with
            | context [Executed ?f ?a ?c (inl ?t)] =>
                apply (Hok (Executed f a c (inl t))); [in_list | exact I]
            | context [CommandExecuted ?c (Some ?t)] =>
                apply (Hok (CommandExecuted c (Some t))); [in_list | exact I]
            end).
  (* the output is empty, or it is logged *)
  all: in_inv Hin; injection Hin as <-; try contradiction.
  all: match goal with
       | |- exists before later, ?l = _ /\ _ =>
           let p := prefix_to_lines l in
           let q := later_of l in
           exists p, q
       end.
  all: split; [rewrite ?app_nil_r; reflexivity | repeat constructor; discriminate].
Qed.

End CommitFailures.

Lemma output_logged_line_by_line_witness :
  exists before later,
    calls (steady None None {| code := 0; stdout := "a" +:+ nl +:+ "b" |})
      (commit (hostAt "/repo" true Always None) "/repo" "fix: x") []
    = before
      ++ map LineAppended
           (split LF (stdout {| code := 0; stdout := "a" +:+ nl +:+ "b" |}))
      ++ later
    /\ Forall (fun c => forall line, c <> LineAppended line) later.
Proof.
  apply (output_logged_line_by_line
           (steady None None {| code := 0; stdout := "a" +:+ nl +:+ "b" |})
           (hostAt "/repo" true Always None) "/repo" "fix: x" []
           {| code := 0; stdout := "a" +:+ nl +:+ "b" |}).
  - vm_compute. right. left. reflexivity.
  - vm_compute. repeat constructor; auto.
  - vm_compute. discriminate.
Defined.

(** ** Reading the configuration *)

(** Case analysis of a run of [readCzConfig], on what the file system
    answers. *)
Ltac read_cases :=
  unfold readCzConfig, readPackageJson, sander_exists, sander_readFile, require,
    hasCzConfig, option_truthy;
  repeat (simpl;
    match goal with
    | |- context [workspaceFolders ?h] =>
        destruct (workspaceFolders h) as [[|?folder ?rest]|] eqn:?
    | |- context [existsAnswer ?fs ?p ?f] => destruct (existsAnswer fs p f) eqn:?
    | |- context [readOutcome ?fs ?p ?f] => destruct (readOutcome fs p f) as [?|?text] eqn:?
    | |- context [requireOutcome ?fs ?p ?f] =>
        destruct (requireOutcome fs p f) as [?|[?|]] eqn:?
    | |- context [match ?parse ?text with Normal _ => _ | Throws _ => _ end] =>
        destruct (parse text) as [?pkg|?] eqn:?
    | |- context [json_truthy ?v] => destruct (json_truthy v) eqn:?
    | |- context [czCustomizableConfig ?pkg] =>
        destruct (czCustomizableConfig pkg) as [[| | |?relative| |]|] eqn:?
    | |- context [truthy ?s] => destruct (truthy s) eqn:?
    | |- context [if ?b then _ else _] => is_var b; destruct b
    | |- context [negb ?b] => is_var b; destruct b
    end);
  simpl.

Ltac all_but_two l :=
  lazymatch l with
  | [_; _] => constr:(@nil Access)
  | ?y :: ?l' => let p := all_but_two l' in constr:(y :: p)
  end.

Ltac all_but_one l :=
  lazymatch l with
  | [_] => constr:(@nil Access)
  | ?y :: ?l' => let p := all_but_one l' in constr:(y :: p)
  end.

Section ReadCzConfig.

Variable path_join : string -> string -> string.
Variable JSON_parse : string -> Completion Json.
Variable fs : FileSystem.
Variable host : Host.

(** X11. Where a configuration comes from: when [readCzConfig] returns a
    configuration, it is what [require] returned for a file that the
    check just before found to exist, and that file is [.cz-config.js] in
    the first workspace folder or the file that the text read from
    [package.json] names, as a non-empty string under
    [config.cz-customizable.config], relative to that folder. *)
Theorem readCzConfig_returns_required_module (past : list Access) (c : CzConfig) :
  fst (runRead fs (readCzConfig path_join JSON_parse host) past) = Normal (Some c) ->
  exists folder rest before p,
    workspaceFolders host = Some (folder :: rest)
    /\ snd (runRead fs (readCzConfig path_join JSON_parse host) past)
       = before ++ [Checked p true; Required p (inr (Some c))]
    /\ (p = path_join folder ".cz-config.js"
        \/ exists text pkg relative,
             In (FileWasRead (path_join folder "package.json") (inr text)) before
             /\ JSON_parse text = Normal pkg
             /\ czCustomizableConfig pkg = Some (JString relative)
             /\ truthy relative = true
             /\ p = path_join folder relative).
Proof.
  read_cases; intros Hc; try discriminate Hc.
  all: injection Hc as <-.
  all: exists folder, rest.
  all: match goal with
       | |- exists before p, _ /\ ?l = _ /\ _ =>
           let b := all_but_two l in exists b
       end.
  all: eexists; (split; [reflexivity | split; [reflexivity|]]).
  all: first [ left; reflexivity
             | right; do 3 eexists;
               (split; [in_list | repeat split; eassumption]) ].
Qed.

(** X12. Why [readCzConfig] rejects: there is an empty list of workspace
    folders; or the last access is a [require] or a read of a file that
    failed with that error; or the text read from [package.json] does not
    parse; or the value under [config.cz-customizable.config] is truthy
    and not a string, which [path.join] refuses. *)
Theorem readCzConfig_rejects_only_for (past : list Access) (e : Error.t) :
  fst (runRead fs (readCzConfig path_join JSON_parse host) past) = Throws e ->
  let accesses := snd (runRead fs (readCzConfig path_join JSON_parse host) past) in
  (workspaceFolders host = Some [] /\ e = TypeError "uri")
  \/ (exists before p, accesses = before ++ [Required p (inl e)])
  \/ (exists before p, accesses = before ++ [FileWasRead p (inl e)])
  \/ (exists before p text,
        accesses = before ++ [FileWasRead p (inr text)] /\ JSON_parse text = Throws e)
  \/ (exists before p text pkg v,
        accesses = before ++ [FileWasRead p (inr text)]
        /\ JSON_parse text = Normal pkg
        /\ czCustomizableConfig pkg = Some v /\ json_truthy v = true
        /\ (forall relative, v <> JString relative)
        /\ e = pathTypeError).
Proof.
  read_cases; intros He; cbv zeta; try discriminate He.
  all: injection He as <-.
  all: try (left; split; reflexivity).
  all: right.
  all: try (left;
            match goal with
            | |- exists before p, ?l = _ =>
                let b := all_but_one l in exists b
            end; eexists; reflexivity).
  all: right.
  all: try (left;
            match goal with
            | |- exists before p, ?l = _ =>
                let b := all_but_one l in exists b
            end; eexists; reflexivity).
  all: right.
  all: try (left;
            match goal with
            | |- exists before p text, ?l = _ /\ _ =>
                let b := all_but_one l in exists b
            end; do 2 eexists; (split; [reflexivity | eassumption])).
  all: right.
  all: match goal with
       | |- exists before p text pkg v, ?l = _ /\ _ =>
           let b := all_but_one l in exists b
       end; do 4 eexists;
       (split; [reflexivity | split; [eassumption | split; [eassumption|]]]);
       (split; [reflexivity | split; [discriminate | reflexivity]]).
Qed.

(** X13. [package.json] is read only after [.cz-config.js] was not found:
    a run of [readCzConfig] that reads a file begins with the check of
    [.cz-config.js] in the first workspace folder, answered no, and the
    check of [package.json] in that folder, answered yes, and the file it
    reads then is that [package.json]; it reads no other file. *)
Theorem package_json_read_after_root_file_missing (past : list Access)
  (p : string) (o : Error.t + string) :
  In (FileWasRead p o) (snd (runRead fs (readCzConfig path_join JSON_parse host) past)) ->
  exists folder rest later,
    workspaceFolders host = Some (folder :: rest)
    /\ p = path_join folder "package.json"
    /\ snd (runRead fs (readCzConfig path_join JSON_parse host) past)
       = Checked (path_join folder ".cz-config.js") false
         :: Checked p true :: FileWasRead p o :: later
    /\ forall p' o', ~ In (FileWasRead p' o') later.
Proof.
  read_cases; intros Hin; in_inv Hin; injection Hin as <- <-.
  all: exists folder, rest.
  all: eexists; (split; [reflexivity | split; [reflexivity | split; [reflexivity|]]]).
  all: intros p' o' Hin'; in_inv Hin'.
Qed.

End ReadCzConfig.

Lemma readCzConfig_returns_required_module_witness :
  exists folder rest before p,
    workspaceFolders (hostAt "/repo" false Off None) = Some (folder :: rest)
    /\ snd (runRead (files ["/repo/package.json"; "/repo/conf/cz.js"] (inr "{}")
                       (inr (Some defaultTable)))
              (readCzConfig joinWithSlash
                 (fun _ => Normal (packageNaming (JString "conf/cz.js")))
                 (hostAt "/repo" false Off None)) [])
       = before ++ [Checked p true; Required p (inr (Some defaultTable))]
    /\ (p = joinWithSlash folder ".cz-config.js"
        \/ exists text pkg relative,
             In (FileWasRead (joinWithSlash folder "package.json") (inr text)) before
             /\ (fun _ : string => Normal (packageNaming (JString "conf/cz.js"))) text
                = Normal pkg
             /\ czCustomizableConfig pkg = Some (JString relative)
             /\ truthy relative = true
             /\ p = joinWithSlash folder relative).
Proof.
  apply (readCzConfig_returns_required_module joinWithSlash
           (fun _ => Normal (packageNaming (JString "conf/cz.js")))
           (files ["/repo/package.json"; "/repo/conf/cz.js"] (inr "{}")
              (inr (Some defaultTable)))
           (hostAt "/repo" false Off None) [] defaultTable).
  reflexivity.
Defined.

Lemma readCzConfig_rejects_only_for_witness :
  let accesses :=
    snd (runRead (files ["/repo/package.json"] (inr "{}") (inr None))
           (readCzConfig joinWithSlash (fun _ => Normal (packageNaming (JBool true)))
              (hostAt "/repo" false Off None)) []) in
  (workspaceFolders (hostAt "/repo" false Off None) = Some []
   /\ pathTypeError = TypeError "uri")
  \/ (exists before p, accesses = before ++ [Required p (inl pathTypeError)])
  \/ (exists before p, accesses = before ++ [FileWasRead p (inl pathTypeError)])
  \/ (exists before p text,
        accesses = before ++ [FileWasRead p (inr text)]
        /\ (fun _ : string => Normal (packageNaming (JBool true))) text
           = Throws pathTypeError)
  \/ (exists before p text pkg v,
        accesses = before ++ [FileWasRead p (inr text)]
        /\ (fun _ : string => Normal (packageNaming (JBool true))) text = Normal pkg
        /\ czCustomizableConfig pkg = Some v /\ json_truthy v = true
        /\ (forall relative, v <> JString relative)
        /\ pathTypeError = pathTypeError).
Proof.
  apply (readCzConfig_rejects_only_for joinWithSlash
           (fun _ => Normal (packageNaming (JBool true)))
           (files ["/repo/package.json"] (inr "{}") (inr None))
           (hostAt "/repo" false Off None) [] pathTypeError).
  reflexivity.
Defined.

Lemma package_json_read_after_root_file_missing_witness :
  exists folder rest later,
    workspaceFolders (hostAt "/repo" false Off None) = Some (folder :: rest)
    /\ "/repo/package.json" = joinWithSlash folder "package.json"
    /\ snd (runRead (files ["/repo/package.json"] (inr "{}") (inr None))
              (readCzConfig joinWithSlash (fun _ => Normal (JObject []))
                 (hostAt "/repo" false Off None)) [])
       = Checked (joinWithSlash folder ".cz-config.js") false
         :: Checked "/repo/package.json" true
         :: FileWasRead "/repo/package.json" (inr "{}") :: later
    /\ forall p' o', ~ In (FileWasRead p' o') later.
Proof.
  apply (package_json_read_after_root_file_missing joinWithSlash
           (fun _ => Normal (JObject []))
           (files ["/repo/package.json"] (inr "{}") (inr None))
           (hostAt "/repo" false Off None) [] "/repo/package.json" (inr "{}")).
  vm_compute. right. right. left. reflexivity.
Defined.

(** ** The package, the subject and the type *)

Lemma member_object (key : string) (v w : Json) :
  member key v = Some w -> json_truthy v = true.
Proof. destruct v; simpl; try discriminate; reflexivity. Qed.

(** X14. The guard of [hasCzConfig] on a package other than [null] (on
    [null] the first member access throws, and [hasCzConfig] is not
    called: [readCzConfig] returns before for a falsy package): the
    package names a configuration file iff it has a member [config] that
    has a member [cz-customizable] that has a member [config] whose value
    is truthy. A falsy or missing value on the way, or one that is not
    an object, makes the guard falsy. *)
Theorem hasCzConfig_iff (pkg : Json) :
  pkg <> JNull ->
  (hasCzConfig pkg = true
   <-> exists c z v,
         member "config" pkg = Some c
         /\ member "cz-customizable" c = Some z
         /\ member "config" z = Some v
         /\ json_truthy v = true).
Proof.
  intros _. unfold hasCzConfig, czCustomizableConfig, option_truthy. split.
  - destruct (member "config" pkg) as [c|]; [|discriminate]. simpl.
    destruct (json_truthy c) eqn:Hc; simpl;
      [|rewrite Hc; simpl; rewrite Hc; discriminate].
    destruct (member "cz-customizable" c) as [z|] eqn:Hmember; [|discriminate]. simpl.
    destruct (json_truthy z) eqn:Hz; simpl; [|congruence].
    destruct (member "config" z) as [v|] eqn:Hmember'; [|discriminate]. simpl.
    intros Hv. now exists c, z, v.
  - intros (c & z & v & -> & Hz & Hv & Htruthy). simpl.
    rewrite (member_object _ _ _ Hz), Hz. simpl.
    rewrite (member_object _ _ _ Hv), Hv. exact Htruthy.
Qed.

Lemma hasCzConfig_iff_witness :
  hasCzConfig (packageNaming (JString "conf/cz.js")) = true
  <-> exists c z v,
        member "config" (packageNaming (JString "conf/cz.js")) = Some c
        /\ member "cz-customizable" c = Some z
        /\ member "config" z = Some v
        /\ json_truthy v = true.
Proof.
  apply (hasCzConfig_iff (packageNaming (JString "conf/cz.js"))).
  discriminate.
Defined.

(** X15. The subject step asks with a validator that accepts a text of
    ASCII characters, by returning the empty string, iff the text is not
    empty and has at most [subjectLength] characters: a subject of exactly
    [subjectLength] characters is accepted. *)
Theorem subject_validator_bounds (env : Environment) (host : Host)
  (this : ConventionalCommitMessage) (past : list Entry) :
  next this = true ->
  exists validate answer,
    calls env (getSubject host this) past
      = [InputBoxShown (inputMessage this MSubject) (Some validate) answer]
    /\ forall input, ascii_text input ->
         (validate input = ""
          <-> 0 < String.length input
              /\ (Z.of_nat (String.length input) <= subjectLength (configuration host))%Z).
Proof.
  intros Hnext. unfold_step. rewrite Hnext. simpl.
  eexists. exists (inputAnswer env past (inputMessage this MSubject)
                     (Some (fun input : string =>
                        if (String.length input =? 0)
                           || (subjectLength (configuration host)
                               <? Z.of_nat (String.length input))%Z
                        then "Subject is required and must be less than "
                             +:+ number_to_string (subjectLength (configuration host))
                             +:+ " characters"
                        else ""))).
  split.
  - destruct (inputAnswer env past _ _); reflexivity.
  - intros input _. simpl.
    destruct (Nat.eqb_spec (String.length input) 0) as [Hzero|Hzero]; simpl.
    + split; [discriminate | lia].
    + destruct (Z.ltb_spec (subjectLength (configuration host))
                  (Z.of_nat (String.length input))) as [Hlong|Hshort].
      * split; [discriminate | lia].
      * split; [intros _; lia | reflexivity].
Qed.

Lemma subject_validator_bounds_witness :
  exists validate answer,
    calls (steady None (Some "add health endpoint") {| code := 0; stdout := "" |})
      (getSubject (hostAt "/repo" false Off None) (new None)) []
      = [InputBoxShown (inputMessage (new None) MSubject) (Some validate) answer]
    /\ forall input, ascii_text input ->
         (validate input = ""
          <-> 0 < String.length input
              /\ (Z.of_nat (String.length input)
                  <= subjectLength (configuration (hostAt "/repo" false Off None)))%Z).
Proof.
  apply (subject_validator_bounds
           (steady None (Some "add health endpoint") {| code := 0; stdout := "" |})
           (hostAt "/repo" false Off None) (new None) []).
  reflexivity.
Defined.

Lemma filter_head_first {A : Type} (f : A -> bool) (l : list A) (a : A) :
  In a l -> f a = true ->
  exists before b later,
    l = before ++ b :: later
    /\ Forall (fun x => f x = false) before
    /\ f b = true
    /\ List.filter f l = b :: List.filter f later.
Proof.
  induction l as [|x l IH]; intros Hin Ha; [destruct Hin|].
  simpl. destruct (f x) eqn:Hx.
  - exists [], x, l. split; [reflexivity|]. split; [constructor|].
    split; [exact Hx | reflexivity].
  - destruct Hin as [->|Hin]; [congruence|].
    destruct (IH Hin Ha) as (before & b & later & -> & Hbefore & Hb & Hfilter).
    exists (x :: before), b, later. split; [reflexivity|].
    split; [now constructor|]. split; [exact Hb | exact Hfilter].
Qed.

(** X16. A type taken from the configured table has its emoji in the
    message: when the type of the object is the value of an entry of the
    configured types, [message] returns, and the header carries the emoji
    code of the first entry of the table with that value: no entry before
    it in the table has the value. *)
Theorem message_carries_emoji_of_type (this : ConventionalCommitMessage)
  (c : CzConfig) (czTypes : list CommitType) (entry : CommitType) :
  czConfig this = Some c ->
  types c = Some czTypes ->
  In entry czTypes ->
  type this = Some (VStr (value entry)) ->
  exists before first later,
    czTypes = before ++ first :: later
    /\ Forall (fun other => value other <> value entry) before
    /\ value first = value entry
    /\ message this
       = Normal (value entry +:+ scopePart this +:+ ": " +:+ emojiCode first +:+ " "
                 +:+ template (subject this) +:+ nl +:+ nl
                 +:+ template (body this) +:+ nl +:+ nl
                 +:+ breakingPart this +:+ messageFooter this).
Proof.
  intros Hcfg Htypes Hin Htype. unfold message. rewrite Hcfg. simpl. rewrite Htypes.
  destruct (filter_head_first
              (fun eachEmoji => strict_eq (value eachEmoji) (type this))
              czTypes entry Hin)
    as (before & first & later & Hsplit & Hbefore & Hmatch & ->).
  { rewrite Htype. simpl. apply String.eqb_refl. }
  exists before, first, later. split; [exact Hsplit|].
  rewrite Htype in Hmatch, Hbefore. simpl in Hmatch. apply String.eqb_eq in Hmatch.
  split.
  - eapply List.Forall_impl; [|exact Hbefore].
    intros other Hother. simpl in Hother. now apply String.eqb_neq.
  - split; [exact Hmatch|]. rewrite Htype. reflexivity.
Qed.

Lemma message_carries_emoji_of_type_witness :
  exists before first later,
    [ {| value := "fix"; name := "old"; emoji := ""; emojiCode := ":bug:" |};
      {| value := "feat"; name := "new"; emoji := ""; emojiCode := ":sparkles:" |};
      {| value := "feat"; name := "newer"; emoji := ""; emojiCode := ":star:" |} ]
    = before ++ first :: later
    /\ Forall (fun other => value other <> "feat") before
    /\ value first = "feat"
    /\ message (scenario
                  (Some {| types :=
                             Some [ {| value := "fix"; name := "old"; emoji := "";
                                       emojiCode := ":bug:" |};
                                    {| value := "feat"; name := "new"; emoji := "";
                                       emojiCode := ":sparkles:" |};
                                    {| value := "feat"; name := "newer"; emoji := "";
                                       emojiCode := ":star:" |} ];
                           scopes := None; messages := None;
                           allowCustomScopes := false; allowBreakingChanges := [];
                           footerPrefix := None; skipQuestions := None |})
                  None)
       = Normal ("feat" +:+ "(api)" +:+ ": " +:+ emojiCode first +:+ " "
                 +:+ "add health endpoint" +:+ nl +:+ nl
                 +:+ "undefined" +:+ nl +:+ nl
                 +:+ "" +:+ "Closes #42").
Proof.
  apply (message_carries_emoji_of_type
           (scenario
              (Some {| types :=
                         Some [ {| value := "fix"; name := "old"; emoji := "";
                                   emojiCode := ":bug:" |};
                                {| value := "feat"; name := "new"; emoji := "";
                                   emojiCode := ":sparkles:" |};
                                {| value := "feat"; name := "newer"; emoji := "";
                                   emojiCode := ":star:" |} ];
                       scopes := None; messages := None;
                       allowCustomScopes := false; allowBreakingChanges := [];
                       footerPrefix := None; skipQuestions := None |})
              None)
           {| types :=
                Some [ {| value := "fix"; name := "old"; emoji := "";
                          emojiCode := ":bug:" |};
                       {| value := "feat"; name := "new"; emoji := "";
                          emojiCode := ":sparkles:" |};
                       {| value := "feat"; name := "newer"; emoji := "";
                          emojiCode := ":star:" |} ];
              scopes := None; messages := None;
              allowCustomScopes := false; allowBreakingChanges := [];
              footerPrefix := None; skipQuestions := None |}
           [ {| value := "fix"; name := "old"; emoji := ""; emojiCode := ":bug:" |};
             {| value := "feat"; name := "new"; emoji := ""; emojiCode := ":sparkles:" |};
             {| value := "feat"; name := "newer"; emoji := ""; emojiCode := ":star:" |} ]
           {| value := "feat"; name := "newer"; emoji := ""; emojiCode := ":star:" |}).
  - reflexivity.
  - reflexivity.
  - right. right. left. reflexivity.
  - reflexivity.
Defined.

Lemma key_inj (t t' : MessageType) : key t = key t' -> t = t'.
Proof. destruct t, t'; simpl; intros H; try reflexivity; discriminate H. Qed.

Lemma inputMessage_lookup (this : ConventionalCommitMessage) (c : CzConfig)
  (texts : gmap string string) (messageType : MessageType) :
  czConfig this = Some c -> messages c = Some texts ->
  inputMessage this messageType
  = default (DEFAULT_MESSAGES messageType) (texts !! key messageType).
Proof.
  intros Hcfg Htexts.
  destruct (texts !! key messageType) as [text|] eqn:Hlookup; simpl.
  - apply inputMessage_custom. rewrite Hcfg. simpl. rewrite Htexts. exact Hlookup.
  - apply inputMessage_default. rewrite Hcfg. simpl. rewrite Htexts. exact Hlookup.
Qed.

(** X17. A configured text replaces the built-in text of its own prompt
    only: setting the text of one message type in [messages] makes it
    the text of that prompt, also when it is empty, and leaves the texts
    of the seven other prompts as they were. *)
Theorem configured_message_replaces_its_own_text
  (this this' : ConventionalCommitMessage) (c c' : CzConfig)
  (texts : gmap string string) (messageType : MessageType) (text : string) :
  czConfig this = Some c -> messages c = Some texts ->
  czConfig this' = Some c' -> messages c' = Some (<[key messageType := text]> texts) ->
  inputMessage this' messageType = text
  /\ forall other, other <> messageType ->
       inputMessage this' other = inputMessage this other.
Proof.
  intros Hcfg Htexts Hcfg' Htexts'. split.
  - rewrite (inputMessage_lookup this' c' _ messageType Hcfg' Htexts').
    now rewrite lookup_insert_eq.
  - intros other Hother.
    rewrite (inputMessage_lookup this' c' _ other Hcfg' Htexts').
    rewrite (inputMessage_lookup this c texts other Hcfg Htexts).
    rewrite lookup_insert_ne; [reflexivity|].
    intros Hkey. apply Hother. symmetry. now apply key_inj.
Qed.

Lemma configured_message_replaces_its_own_text_witness :
  inputMessage
    (new (Some {| types := None; scopes := None;
                  messages := Some (<[key MBody := ""]> {[ "type" := "Kind of change" ]});
                  allowCustomScopes := false; allowBreakingChanges := [];
                  footerPrefix := None; skipQuestions := None |})) MBody = ""
  /\ forall other, other <> MBody ->
       inputMessage
         (new (Some {| types := None; scopes := None;
                       messages := Some (<[key MBody := ""]> {[ "type" := "Kind of change" ]});
                       allowCustomScopes := false; allowBreakingChanges := [];
                       footerPrefix := None; skipQuestions := None |})) other
       = inputMessage
           (new (Some {| types := None; scopes := None;
                         messages := Some {[ "type" := "Kind of change" ]};
                         allowCustomScopes := false; allowBreakingChanges := [];
                         footerPrefix := None; skipQuestions := None |})) other.
Proof.
  apply (configured_message_replaces_its_own_text
           (new (Some {| types := None; scopes := None;
                         messages := Some {[ "type" := "Kind of change" ]};
                         allowCustomScopes := false; allowBreakingChanges := [];
                         footerPrefix := None; skipQuestions := None |}))
           (new (Some {| types := None; scopes := None;
                         messages := Some (<[key MBody := ""]> {[ "type" := "Kind of change" ]});
                         allowCustomScopes := false; allowBreakingChanges := [];
                         footerPrefix := None; skipQuestions := None |}))
           {| types := None; scopes := None;
              messages := Some {[ "type" := "Kind of change" ]};
              allowCustomScopes := false; allowBreakingChanges := [];
              footerPrefix := None; skipQuestions := None |}
           {| types := None; scopes := None;
              messages := Some (<[key MBody := ""]> {[ "type" := "Kind of change" ]});
              allowCustomScopes := false; allowBreakingChanges := [];
              footerPrefix := None; skipQuestions := None |}
           {[ "type" := "Kind of change" ]} MBody "");
    reflexivity.
Defined.

(** ** The scope in the header *)

(** X18. A scope picked from the list shows in the header: with scopes
    configured (without [allowCustomScopes]), picking an option whose
    label is a non-empty text other than the [customScopeEntry] text
    makes one call, stores the label as the scope, keeps the wizard
    going, and the header of the message has the label in parentheses. *)
Theorem picked_scope_in_header (env : Environment) (this : ConventionalCommitMessage)
  (past : list Entry) (c : CzConfig) (s : Value) (ss : list Value)
  (pick : QuickPickItem) (text : string) :
  next this = true ->
  czConfig this = Some c ->
  scopes c = Some (s :: ss) ->
  allowCustomScopes c = false ->
  let picks := map (fun scope => {| label := scopeLabel scope; description := "" |})
                   (s :: ss) in
  let question := inputMessage this MCustomScope in
  pickAnswer env past picks question = Some pick ->
  label pick = VStr text ->
  text <> "" ->
  text <> inputMessage this MCustomScopeEntry ->
  exists this',
    run env (getScope this) past
      = (Normal this', [QuickPickShown picks question (Some pick)])
    /\ scope this' = Some (VStr text)
    /\ next this' = true
    /\ scopePart this' = "(" +:+ text +:+ ")".
Proof.
  intros Hnext Hcfg Hscopes Hallow picks question Hanswer Hlabel Htext Hcustom.
  rewrite (getScope_list_run env this past c s ss Hnext Hcfg Hscopes Hallow).
  cbv zeta. fold picks question. rewrite Hanswer, Hlabel. unfold label_is.
  destruct (String.eqb_spec text (inputMessage this MCustomScopeEntry)) as [Heq|_];
    [contradiction|].
  cbn [andb]. unfold or_undefined. cbn [value_truthy].
  assert (Htruthy : truthy text = true) by now apply truthy_spec.
  rewrite Htruthy.
  eexists. split; [reflexivity|]. split; [reflexivity|]. split; [reflexivity|].
  unfold scopePart. cbn [scope set_next set_scope]. now rewrite Htruthy.
Qed.

Lemma picked_scope_in_header_witness :
  exists this',
    run (steady (Some {| label := VStr "api"; description := "" |}) None
           {| code := 0; stdout := "" |})
      (getScope (new (Some blankScope))) []
      = (Normal this',
         [QuickPickShown
            (map (fun scope => {| label := scopeLabel scope; description := "" |})
                 [VStr ""; VStr "api"])
            (inputMessage (new (Some blankScope)) MCustomScope)
            (Some {| label := VStr "api"; description := "" |})])
    /\ scope this' = Some (VStr "api")
    /\ next this' = true
    /\ scopePart this' = "(" +:+ "api" +:+ ")".
Proof.
  apply (picked_scope_in_header
           (steady (Some {| label := VStr "api"; description := "" |}) None
              {| code := 0; stdout := "" |})
           (new (Some blankScope)) [] blankScope (VStr "") [VStr "api"]
           {| label := VStr "api"; description := "" |} "api");
    try reflexivity; discriminate.
Defined.

(** X19. A scope typed as free text is stored as it is: with no scopes
    configured and the scope question not skipped, the text typed in the
    input box becomes the scope, also when it is empty, the wizard goes
    on, and the header has the text in parentheses iff it is not empty. *)
Theorem typed_scope_in_header (env : Environment) (this : ConventionalCommitMessage)
  (past : list Entry) (typed : string) :
  next this = true ->
  hasScopes (czConfig this) = false ->
  shouldSkip (czConfig this) MScope = false ->
  inputAnswer env past (inputMessage this MScope) None = Some typed ->
  exists this',
    run env (getScope this) past
      = (Normal this', [InputBoxShown (inputMessage this MScope) None (Some typed)])
    /\ scope this' = Some (VStr typed)
    /\ next this' = true
    /\ scopePart this' = (if truthy typed then "(" +:+ typed +:+ ")" else "").
Proof.
  intros Hnext Hscopes Hskip Hanswer.
  unfold_step. rewrite Hnext, Hscopes, Hskip. simpl. rewrite Hanswer. simpl.
  eexists. split; [reflexivity|]. repeat split.
Qed.

Lemma typed_scope_in_header_witness :
  exists this',
    run (steady None (Some "") {| code := 0; stdout := "" |})
      (getScope (new (Some defaultTable))) []
      = (Normal this',
         [InputBoxShown (inputMessage (new (Some defaultTable)) MScope) None (Some "")])
    /\ scope this' = Some (VStr "")
    /\ next this' = true
    /\ scopePart this' = (if truthy "" then "(" +:+ "" +:+ ")" else "").
Proof.
  apply (typed_scope_in_header
           (steady None (Some "") {| code := 0; stdout := "" |})
           (new (Some defaultTable)) [] ""); reflexivity.
Defined.
